(** * Prompt composition and end-of-loop queue of the TUI prompt component

    A shallow embedding of the [Prompt] component (the terminal prompt of the
    client): the composition that is resolved on submit, the per-session queue
    of prompts deferred to the end of the agent loop, the gate that suspends
    the automatic dispatch after an interrupt, and the reactive effects that
    drain the queue.

    JavaScript strings are sequences of UTF-16 code units; numbers that the
    code uses as offsets and indices are integers. *)

From stdpp Require Import base list gmap strings sorting.
From Stdlib Require Import ZArith NArith Lia.
From Stdlib Require Ascii String DecimalString.

Local Open Scope Z_scope.

(** ** JavaScript strings *)

Module JS.

(** A string is the list of its UTF-16 code units. *)
Abbreviation jsstring := (list N).

(** The code units of an ASCII literal. *)
Definition lit (s : string) : jsstring :=
  Ascii.N_of_ascii <$> String.list_ascii_of_string s.

(** ECMAScript [WhiteSpace] and [LineTerminator] code points: the class
    [\s] of a regular expression and the characters [trim] strips. *)
Definition is_space (c : N) : bool :=
  ((c =? 9) || (c =? 10) || (c =? 11) || (c =? 12) || (c =? 13) ||
   (c =? 32) || (c =? 160) || (c =? 5760) ||
   ((8192 <=? c) && (c <=? 8202)) ||
   (c =? 8232) || (c =? 8233) || (c =? 8239) || (c =? 8287) ||
   (c =? 12288) || (c =? 65279))%N.

Fixpoint trimStart (s : jsstring) : jsstring :=
  match s with
  | c :: s' => if is_space c then trimStart s' else s
  | [] => []
  end.

Definition trimEnd (s : jsstring) : jsstring :=
  reverse (trimStart (reverse s)).

(** [s.trim()] *)
Definition trim (s : jsstring) : jsstring := trimEnd (trimStart s).

(** [s.replace(/\s+/g, " ")]: every maximal run of white space becomes one
    space.  [in_run] tells that the previous code unit was white space. *)
Fixpoint replace_ws_runs (in_run : bool) (s : jsstring) : jsstring :=
  match s with
  | [] => []
  | c :: s' =>
      if is_space c
      then (if in_run then replace_ws_runs true s'
            else 32%N :: replace_ws_runs true s')
      else c :: replace_ws_runs false s'
  end.

(** The relative index of [slice]: negative arguments count from the end,
    everything is clamped to [0, len]. *)
Definition clamp_index (len i : Z) : Z :=
  if i <? 0 then Z.max (len + i) 0 else Z.min i len.

(** [s.slice(start, end)] *)
Definition slice {A} (s : list A) (start stop : Z) : list A :=
  let len := Z.of_nat (length s) in
  let from := clamp_index len start in
  let to := clamp_index len stop in
  take (Z.to_nat (Z.max (to - from) 0)) (drop (Z.to_nat from) s).

(** [s.slice(start)] *)
Definition slice_from {A} (s : list A) (start : Z) : list A :=
  slice s start (Z.of_nat (length s)).

(** [s.startsWith(p)] *)
Fixpoint startsWith (s p : jsstring) : bool :=
  match p, s with
  | [], _ => true
  | _ :: _, [] => false
  | a :: p', b :: s' => (a =? b)%N && startsWith s' p'
  end.

(** Truthiness of a string that may be [undefined]: the empty string and
    [undefined] are falsy. *)
Definition truthy (o : option jsstring) : bool :=
  match o with
  | Some (_ :: _) => true
  | _ => false
  end.

(** The part of [s] before the first occurrence of the code unit [c]
    ([s.split(c)[0]]), and the rest after it, if [c] occurs. *)
Fixpoint split_first (c : N) (s : jsstring) : jsstring * option jsstring :=
  match s with
  | [] => ([], None)
  | x :: s' =>
      if (x =? c)%N then ([], Some s')
      else let '(a, b) := split_first c s' in (x :: a, b)
  end.

(** Decimal digits of a number, as template literals print them. *)
Definition of_nat (n : nat) : jsstring :=
  lit (DecimalString.NilZero.string_of_uint (Nat.to_uint n)).

End JS.
Import JS.

(** ** Queue preview *)

(** [queuedPreview(inputText)]: the text shown next to a queued prompt in the
    strip under the input. *)
Definition queuedPreview (inputText : jsstring) : jsstring :=
  let oneLine := trim (replace_ws_runs false inputText) in
  if (Z.of_nat (length oneLine) <=? 80) then oneLine
  else slice oneLine 0 77 ++ lit "...".

(** ** Composition: prompt text, parts and extmarks *)

(** The range of the virtual text of a part ([source.text] of a text or file
    part, [source] of an agent part). *)
Record Source := {
  src_start : Z;
  src_end : Z;
  src_value : jsstring;
}.

(** A part of [PromptInfo["parts"]], by its [type] field. *)
Inductive Part :=
| TextPart (text : jsstring) (source : option Source)
| FilePart (mime filename url : jsstring) (source : option Source)
| AgentPart (name : jsstring) (source : option Source).

(** [part.type === "text"] *)
Definition is_text (p : Part) : bool :=
  match p with
  | TextPart _ _ => true
  | _ => false
  end.

(** [part.type === "file"] *)
Definition is_file (p : Part) : bool :=
  match p with
  | FilePart _ _ _ _ => true
  | _ => false
  end.

(** An extmark of the text area, as [extmarks.getAllForTypeId] returns it. *)
Record Extmark := {
  e_id : Z;
  e_start : Z;
  e_end : Z;
}.

(** What [resolvePromptInput] reads: [store.prompt], [store.extmarkToPartIndex]
    and the extmarks of the text area. *)
Record Composition := {
  c_input : jsstring;
  c_parts : list Part;
  c_extmarkToPartIndex : gmap Z nat;
  c_extmarks : list Extmark;
}.

(** [Array.prototype.sort] with the comparator [(a, b) => b.start - a.start]:
    a stable sort by descending [start].  [insert_desc] puts [x] before the
    first element that does not start after it. *)
Fixpoint insert_desc (x : Extmark) (l : list Extmark) : list Extmark :=
  match l with
  | [] => [x]
  | y :: l' =>
      if e_start y <=? e_start x then x :: l
      else y :: insert_desc x l'
  end.

Definition sort_desc (l : list Extmark) : list Extmark :=
  foldr insert_desc [] l.

(** The body of the loop of [resolvePromptInput] for one extmark. *)
Definition resolve_step (c : Composition) (inputText : jsstring)
    (extmark : Extmark) : jsstring :=
  match c_extmarkToPartIndex c !! e_id extmark with
  | Some partIndex =>
      match c_parts c !! partIndex with
      | Some (TextPart ((_ :: _) as text) _) =>
          let before := slice inputText 0 (e_start extmark) in
          let after := slice_from inputText (e_end extmark) in
          before ++ text ++ after
      | _ => inputText
      end
  | None => inputText
  end.

(** [resolvePromptInput()]: the pair [(inputText, nonTextParts)]. *)
Definition resolvePromptInput (c : Composition) : jsstring * list Part :=
  let sortedExtmarks := sort_desc (c_extmarks c) in
  (foldl (resolve_step c) (c_input c) sortedExtmarks,
   filter (λ part, is_text part = false) (c_parts c)).

(** *** Reference expansion

    The expansion read off the original text from left to right.  [asc] lists
    the markers by ascending position; [cursor] is where the text copied so
    far ends. *)

(** The stored text that replaces the placeholder of a marker, when the
    marker is mapped to a text part that stores a non-empty text. *)
Definition stored_text (c : Composition) (m : Extmark) : option jsstring :=
  match c_extmarkToPartIndex c !! e_id m with
  | Some partIndex =>
      match c_parts c !! partIndex with
      | Some (TextPart ((_ :: _) as text) _) => Some text
      | _ => None
      end
  | None => None
  end.

(** The code units of [raw] at the offsets [from <= i < to]. *)
Definition segment (raw : jsstring) (from to : Z) : jsstring :=
  take (Z.to_nat to - Z.to_nat from)%nat (drop (Z.to_nat from) raw).

Fixpoint expand_asc (c : Composition) (cursor : Z) (asc : list Extmark)
    (stop : Z) : jsstring :=
  match asc with
  | [] => segment (c_input c) cursor stop
  | m :: asc' =>
      segment (c_input c) cursor (e_start m)
      ++ default (segment (c_input c) (e_start m) (e_end m)) (stored_text c m)
      ++ expand_asc c (e_end m) asc' stop
  end.

(** Markers listed by ascending position: in bounds, not empty, and each one
    ends before the next one starts. *)
Fixpoint asc_chain (from : Z) (asc : list Extmark) (stop : Z) : Prop :=
  match asc with
  | [] => from <= stop
  | m :: asc' =>
      from <= e_start m ∧ e_start m < e_end m ∧ asc_chain (e_end m) asc' stop
  end.

(** The orders of a list sorted by descending start: [a] comes before [b]
    when [b] does not start after [a], or starts before it. *)
Definition starts_not_before (a b : Extmark) : Prop := e_start b <= e_start a.

Definition starts_after (a b : Extmark) : Prop := e_start b < e_start a.

(** The expansion as the specification words it: the stored text of every
    text part that a marker is mapped to replaces the placeholder, whatever
    the stored text is. *)
Definition stored_text_any (c : Composition) (m : Extmark) : option jsstring :=
  match c_extmarkToPartIndex c !! e_id m with
  | Some partIndex =>
      match c_parts c !! partIndex with
      | Some (TextPart text _) => Some text
      | _ => None
      end
  | None => None
  end.

Fixpoint expand_every_text_part (c : Composition) (cursor : Z)
    (asc : list Extmark) (stop : Z) : jsstring :=
  match asc with
  | [] => segment (c_input c) cursor stop
  | m :: asc' =>
      segment (c_input c) cursor (e_start m)
      ++ default (segment (c_input c) (e_start m) (e_end m))
           (stored_text_any c m)
      ++ expand_every_text_part c (e_end m) asc' stop
  end.

(** ** The prompt component: data *)

Inductive Mode := normal | shell.

(** [status().type] of a session. *)
Inductive StatusType := idle | busy | retry.

(** The values of the [queueGate] signal. *)
Inductive Gate := open | paused | wait_busy | wait_idle.

Record Model := {
  providerID : jsstring;
  modelID : jsstring;
}.

(** [QueuedPrompt]: a prompt deferred to the end of the agent loop. *)
Record QueuedPrompt := {
  q_id : jsstring;
  q_sessionID : jsstring;
  q_inputText : jsstring;
  q_parts : list Part;
  q_agent : jsstring;
  q_model : Model;
  q_variant : option jsstring;
}.

Inductive ToastVariant := info | success | warning | error.

(** Calls the component makes on its collaborators, in the order it makes
    them.  Identifiers generated for the transport (message and part ids) are
    not recorded. *)
Inductive Output :=
| ToastShow (variant : ToastVariant) (message : jsstring) (duration : Z)
| DialogProviderConnect
| DialogClear
| OnSubmit
| Exit
| ShowUsage (inputText : jsstring)
| ShowCodexWho
| ShowCodexSwap (inputText : jsstring)
| HistoryAppend (input : jsstring) (parts : list Part) (mode : Mode)
| SessionAbort (sessionID : jsstring)
| SessionCreate
| SessionShell (sessionID agent : jsstring) (model : Model)
    (command : jsstring)
| SessionCommand (sessionID command arguments agent model : jsstring)
    (variant : option jsstring) (parts : list Part)
| SessionPrompt (sessionID : jsstring) (model : Model)
    (variant : option jsstring) (agent inputText : jsstring)
    (parts : list Part)
| NavigateLater (sessionID : jsstring).

(** [props] of the component. *)
Record Props := {
  disabled : bool;
  sessionID : option jsstring;
}.

(** What the component reads from its collaborators: the autocomplete popup,
    the focus of the text area, the selected model, agent and variant, the
    known slash commands, the providers and the status feed. *)
Record Env := {
  autocomplete_visible : bool;
  input_focused : bool;
  model_current : option Model;
  agent_current : jsstring;
  variant_current : option jsstring;
  command_names : list jsstring;
  provider_length : nat;
  session_status : gmap jsstring StatusType;
}.

(** The [store] of the component. *)
Record Store := {
  st_input : jsstring;
  st_parts : list Part;
  st_mode : Mode;
  st_extmarkToPartIndex : gmap Z nat;
  st_interrupt : Z;
}.

(** The text area [input]: its text, the extmarks of the prompt-part type and
    the id the next created extmark gets. *)
Record Textarea := {
  ta_plainText : jsstring;
  ta_extmarks : list Extmark;
  ta_nextId : Z;
}.

(** The signals of the queue. *)
Record Signals := {
  sig_queuedPrompts : list QueuedPrompt;
  sig_sendingQueuedPrompt : bool;
  sig_queuedEditID : option jsstring;
  sig_queuedCursor : option Z;
  sig_queueGate : Gate;
}.

(** What a [submit] that waits for [session.create] has captured. *)
Record PendingSubmit := {
  ps_inputText : jsstring;
  ps_nonTextParts : list Part;
  ps_selectedModel : Model;
}.

(** Promises that have not settled, and the history of the run: [inflight]
    holds the queued prompts whose [sendPrompt] call is pending, [creating]
    the submits waiting for a new session; [outputs], [enqueued] and
    [dispatched] record what was called, queued and taken off the queue. *)
Record Run := {
  r_inflight : list QueuedPrompt;
  r_creating : list PendingSubmit;
  r_outputs : list Output;
  r_enqueued : list QueuedPrompt;
  r_dispatched : list QueuedPrompt;
}.

Record State := {
  props : Props;
  env : Env;
  store : Store;
  input : Textarea;
  sig : Signals;
  run : Run;
}.

#[global] Instance Mode_eq_dec : EqDecision Mode.
Proof. solve_decision. Defined.
#[global] Instance StatusType_eq_dec : EqDecision StatusType.
Proof. solve_decision. Defined.
#[global] Instance Gate_eq_dec : EqDecision Gate.
Proof. solve_decision. Defined.
#[global] Instance Model_eq_dec : EqDecision Model.
Proof. solve_decision. Defined.
#[global] Instance Source_eq_dec : EqDecision Source.
Proof. solve_decision. Defined.
#[global] Instance Part_eq_dec : EqDecision Part.
Proof. solve_decision. Defined.
#[global] Instance Extmark_eq_dec : EqDecision Extmark.
Proof. solve_decision. Defined.
#[global] Instance QueuedPrompt_eq_dec : EqDecision QueuedPrompt.
Proof. solve_decision. Defined.

(** *** Reading the state *)

Definition prompt_input (s : State) : jsstring := st_input (store s).
Definition prompt_parts (s : State) : list Part := st_parts (store s).
Definition mode (s : State) : Mode := st_mode (store s).
Definition interrupt (s : State) : Z := st_interrupt (store s).
Definition queuedPrompts (s : State) := sig_queuedPrompts (sig s).
Definition sendingQueuedPrompt (s : State) := sig_sendingQueuedPrompt (sig s).
Definition queuedEditID (s : State) := sig_queuedEditID (sig s).
Definition queuedCursor (s : State) := sig_queuedCursor (sig s).
Definition queueGate (s : State) := sig_queueGate (sig s).
Definition inflight (s : State) := r_inflight (run s).
Definition outputs (s : State) := r_outputs (run s).
Definition enqueued (s : State) := r_enqueued (run s).
Definition dispatched (s : State) := r_dispatched (run s).

(** [status().type]: the status of the session of the component, [idle] when
    the feed has none. *)
Definition status (s : State) : StatusType :=
  default idle (session_status (env s) !! default [] (sessionID (props s))).

(** The composition [resolvePromptInput] reads. *)
Definition composition (s : State) : Composition :=
  {| c_input := prompt_input s;
     c_parts := prompt_parts s;
     c_extmarkToPartIndex := st_extmarkToPartIndex (store s);
     c_extmarks := ta_extmarks (input s) |}.

(** The items of a queue that belong to a session. *)
Definition forSession (sid : jsstring) (items : list QueuedPrompt) :=
  filter (λ item, q_sessionID item = sid) items.

(** The memo [queuedPromptsForSession]. *)
Definition queuedPromptsForSession (s : State) : list QueuedPrompt :=
  match sessionID (props s) with
  | Some ((_ :: _) as sid) => forSession sid (queuedPrompts s)
  | _ => []
  end.

(** The memo [queuedPromptsForSessionNewest]. *)
Definition queuedPromptsForSessionNewest (s : State) : list QueuedPrompt :=
  reverse (queuedPromptsForSession s).

(** [list.find((item) => item.id === id)] *)
Definition find_id (id : jsstring) (items : list QueuedPrompt)
    : option QueuedPrompt :=
  snd <$> list_find (λ item, q_id item = id) items.

(** The memo [editingQueuedPrompt]. *)
Definition editingQueuedPrompt (s : State) : option QueuedPrompt :=
  match queuedEditID s with
  | Some ((_ :: _) as id) => find_id id (queuedPromptsForSession s)
  | _ => None
  end.

(** [list[i]] for a number [i]. *)
Definition at_index {A} (items : list A) (i : Z) : option A :=
  if i <? 0 then None else items !! Z.to_nat i.

(** *** Writing the state *)

Definition with_store (f : Store → Store) (s : State) : State :=
  {| props := props s; env := env s; store := f (store s);
     input := input s; sig := sig s; run := run s |}.

Definition with_input (f : Textarea → Textarea) (s : State) : State :=
  {| props := props s; env := env s; store := store s;
     input := f (input s); sig := sig s; run := run s |}.

Definition with_sig (f : Signals → Signals) (s : State) : State :=
  {| props := props s; env := env s; store := store s;
     input := input s; sig := f (sig s); run := run s |}.

Definition with_run (f : Run → Run) (s : State) : State :=
  {| props := props s; env := env s; store := store s;
     input := input s; sig := sig s; run := f (run s) |}.

(** [setStore("prompt", {input, parts})] *)
Definition setStore_prompt (i : jsstring) (ps : list Part) :=
  with_store (λ x,
    {| st_input := i; st_parts := ps; st_mode := st_mode x;
       st_extmarkToPartIndex := st_extmarkToPartIndex x;
       st_interrupt := st_interrupt x |}).

Definition setStore_mode (m : Mode) :=
  with_store (λ x,
    {| st_input := st_input x; st_parts := st_parts x; st_mode := m;
       st_extmarkToPartIndex := st_extmarkToPartIndex x;
       st_interrupt := st_interrupt x |}).

Definition setStore_extmarkToPartIndex (m : gmap Z nat) :=
  with_store (λ x,
    {| st_input := st_input x; st_parts := st_parts x; st_mode := st_mode x;
       st_extmarkToPartIndex := m; st_interrupt := st_interrupt x |}).

Definition setStore_interrupt (n : Z) :=
  with_store (λ x,
    {| st_input := st_input x; st_parts := st_parts x; st_mode := st_mode x;
       st_extmarkToPartIndex := st_extmarkToPartIndex x;
       st_interrupt := n |}).

Definition setQueuedPrompts (f : list QueuedPrompt → list QueuedPrompt) :=
  with_sig (λ x,
    {| sig_queuedPrompts := f (sig_queuedPrompts x);
       sig_sendingQueuedPrompt := sig_sendingQueuedPrompt x;
       sig_queuedEditID := sig_queuedEditID x;
       sig_queuedCursor := sig_queuedCursor x;
       sig_queueGate := sig_queueGate x |}).

Definition setSendingQueuedPrompt (b : bool) :=
  with_sig (λ x,
    {| sig_queuedPrompts := sig_queuedPrompts x;
       sig_sendingQueuedPrompt := b;
       sig_queuedEditID := sig_queuedEditID x;
       sig_queuedCursor := sig_queuedCursor x;
       sig_queueGate := sig_queueGate x |}).

Definition setQueuedEditID (id : option jsstring) :=
  with_sig (λ x,
    {| sig_queuedPrompts := sig_queuedPrompts x;
       sig_sendingQueuedPrompt := sig_sendingQueuedPrompt x;
       sig_queuedEditID := id;
       sig_queuedCursor := sig_queuedCursor x;
       sig_queueGate := sig_queueGate x |}).

Definition setQueuedCursor (i : option Z) :=
  with_sig (λ x,
    {| sig_queuedPrompts := sig_queuedPrompts x;
       sig_sendingQueuedPrompt := sig_sendingQueuedPrompt x;
       sig_queuedEditID := sig_queuedEditID x;
       sig_queuedCursor := i;
       sig_queueGate := sig_queueGate x |}).

Definition setQueueGate (g : Gate) :=
  with_sig (λ x,
    {| sig_queuedPrompts := sig_queuedPrompts x;
       sig_sendingQueuedPrompt := sig_sendingQueuedPrompt x;
       sig_queuedEditID := sig_queuedEditID x;
       sig_queuedCursor := sig_queuedCursor x;
       sig_queueGate := g |}).

(** Record a call on a collaborator. *)
Definition emit (o : Output) :=
  with_run (λ x,
    {| r_inflight := r_inflight x; r_creating := r_creating x;
       r_outputs := r_outputs x ++ [o];
       r_enqueued := r_enqueued x; r_dispatched := r_dispatched x |}).

Definition set_inflight (l : list QueuedPrompt) :=
  with_run (λ x,
    {| r_inflight := l; r_creating := r_creating x;
       r_outputs := r_outputs x;
       r_enqueued := r_enqueued x; r_dispatched := r_dispatched x |}).

Definition set_creating (l : list PendingSubmit) :=
  with_run (λ x,
    {| r_inflight := r_inflight x; r_creating := l;
       r_outputs := r_outputs x;
       r_enqueued := r_enqueued x; r_dispatched := r_dispatched x |}).

Definition log_enqueued (q : QueuedPrompt) :=
  with_run (λ x,
    {| r_inflight := r_inflight x; r_creating := r_creating x;
       r_outputs := r_outputs x;
       r_enqueued := r_enqueued x ++ [q]; r_dispatched := r_dispatched x |}).

Definition log_dispatched (q : QueuedPrompt) :=
  with_run (λ x,
    {| r_inflight := r_inflight x; r_creating := r_creating x;
       r_outputs := r_outputs x;
       r_enqueued := r_enqueued x; r_dispatched := r_dispatched x ++ [q] |}).

(** [input.extmarks.clear()] *)
Definition extmarks_clear :=
  with_input (λ x,
    {| ta_plainText := ta_plainText x; ta_extmarks := [];
       ta_nextId := ta_nextId x |}).

(** [input.extmarks.create({start, end, ...})]: the new extmark gets the next
    id of the text area. *)
Definition extmarks_create (start stop : Z) :=
  with_input (λ x,
    {| ta_plainText := ta_plainText x;
       ta_extmarks := ta_extmarks x ++
         [{| e_id := ta_nextId x; e_start := start; e_end := stop |}];
       ta_nextId := ta_nextId x + 1 |}).

(** [input.setText(text)] and [input.clear()] *)
Definition input_setText (text : jsstring) :=
  with_input (λ x,
    {| ta_plainText := text; ta_extmarks := ta_extmarks x;
       ta_nextId := ta_nextId x |}).

Definition input_clear := input_setText [].

(** ** The prompt component: functions *)

(** [promptModelWarning()] *)
Definition promptModelWarning (s : State) : State :=
  let s := emit (ToastShow warning
                   (lit "Connect a provider to send prompts") 3000) s in
  if (provider_length (env s) =? 0)%nat then emit DialogProviderConnect s
  else s.

(** [clearPrompt()] *)
Definition clearPrompt (s : State) : State :=
  let s := extmarks_clear s in
  let s := input_clear s in
  let s := setStore_prompt [] [] s in
  let s := setStore_extmarkToPartIndex ∅ s in
  emit OnSubmit s.

(** The range and the virtual text a part carries, if any. *)
Definition part_source (p : Part) : option Source :=
  match p with
  | TextPart _ src => src
  | FilePart _ _ _ src => src
  | AgentPart _ src => src
  end.

(** The body of the [forEach] of [restoreExtmarksFromParts]. *)
Definition restore_part (s : State) (ip : nat * Part) : State :=
  match part_source ip.2 with
  | Some {| src_start := start; src_end := stop; src_value := _ :: _ |} =>
      let extmarkId := ta_nextId (input s) in
      let s := extmarks_create start stop s in
      setStore_extmarkToPartIndex
        (<[extmarkId := ip.1]> (st_extmarkToPartIndex (store s))) s
  | _ => s
  end.

(** [restoreExtmarksFromParts(parts)] *)
Definition restoreExtmarksFromParts (ps : list Part) (s : State) : State :=
  let s := extmarks_clear s in
  let s := setStore_extmarkToPartIndex ∅ s in
  foldl restore_part s (imap (λ i p, (i, p)) ps).

(** A part with the range of its source moved to an extmark. *)
Definition move_source (p : Part) (start stop : Z) : Part :=
  let mv (src : Source) :=
    {| src_start := start; src_end := stop; src_value := src_value src |} in
  match p with
  | TextPart t src => TextPart t (mv <$> src)
  | FilePart m f u src => FilePart m f u (mv <$> src)
  | AgentPart n src => AgentPart n (mv <$> src)
  end.

(** The body of the loop of [syncExtmarksWithPromptParts].  The parts are
    objects of the draft that the loop changes in place; [picked] lists the
    indices of the parts pushed to [newParts]. *)
Definition sync_step (old : gmap Z nat)
    (acc : list Part * gmap Z nat * list nat) (extmark : Extmark)
    : list Part * gmap Z nat * list nat :=
  let '(ps, newMap, picked) := acc in
  match old !! e_id extmark with
  | Some partIndex =>
      match ps !! partIndex with
      | Some part =>
          (<[partIndex := move_source part (e_start extmark) (e_end extmark)]>
             ps,
           <[e_id extmark := length picked]> newMap,
           picked ++ [partIndex])
      | None => acc
      end
  | None => acc
  end.

(** [syncExtmarksWithPromptParts()] *)
Definition syncExtmarksWithPromptParts (s : State) : State :=
  let '(ps, newMap, picked) :=
    foldl (sync_step (st_extmarkToPartIndex (store s)))
      (prompt_parts s, ∅, []) (ta_extmarks (input s)) in
  let s := setStore_extmarkToPartIndex newMap s in
  setStore_prompt (prompt_input s) (omap (λ i, ps !! i) picked) s.

(** [onContentChange], after the text area changed its text to [value] and
    moved its extmarks to [marks]. *)
Definition onContentChange (value : jsstring) (marks : list Extmark)
    (s : State) : State :=
  let s := with_input (λ x,
    {| ta_plainText := value; ta_extmarks := marks;
       ta_nextId := ta_nextId x |}) s in
  let s := setStore_prompt (ta_plainText (input s)) (prompt_parts s) s in
  syncExtmarksWithPromptParts s.

(** The updater of [setQueuedPrompts] in the branch of [submit] that commits
    the edit of a queued prompt: the item with the id gets the new text and
    parts, every other item is kept. *)
Definition editInPlace (id inputText : jsstring) (nonTextParts : list Part)
    (items : list QueuedPrompt) : list QueuedPrompt :=
  (λ item,
     if decide (q_id item = id)
     then {| q_id := q_id item; q_sessionID := q_sessionID item;
             q_inputText := inputText; q_parts := nonTextParts;
             q_agent := q_agent item; q_model := q_model item;
             q_variant := q_variant item |}
     else item) <$> items.

(** [list.findIndex((item) => item.id === id)], [None] for [-1]. *)
Definition findIndex_id (id : jsstring) (items : list QueuedPrompt)
    : option nat :=
  fst <$> list_find (λ item, q_id item = id) items.

(** The updater of [setQueuedPrompts] in the dispatch effect: the first item
    with the id is cut out. *)
Definition removeQueued (id : jsstring) (items : list QueuedPrompt)
    : list QueuedPrompt :=
  match findIndex_id id items with
  | None => items
  | Some index => take index items ++ drop (S index) items
  end.

(** [sendPrompt(input)] without a [messageID]. *)
Definition sendPrompt (sid : jsstring) (m : Model) (v : option jsstring)
    (agent inputText : jsstring) (ps : list Part) : State → State :=
  emit (SessionPrompt sid m v agent inputText ps).

(** The rest of [submit] once it has a session id: the direct send. *)
Definition submit_send (sid inputText : jsstring) (nonTextParts : list Part)
    (selectedModel : Model) (s : State) : State :=
  let s := if decide (queueGate s = paused) then setQueueGate wait_busy s
           else s in
  let currentMode := mode s in
  let variant := variant_current (env s) in
  let agent := agent_current (env s) in
  let firstLine := (split_first 10 inputText).1 in
  let restOfInput := default [] (split_first 10 inputText).2 in
  let command := (split_first 32 firstLine).1 in
  let firstLineArgs := default [] (split_first 32 firstLine).2 in
  let s :=
    if decide (mode s = shell) then
      setStore_mode normal (emit (SessionShell sid agent selectedModel inputText) s)
    else if startsWith inputText (lit "/")
            && bool_decide (slice_from command 1 ∈ command_names (env s)) then
      emit (SessionCommand sid (slice_from command 1)
              (firstLineArgs ++
                 match restOfInput with [] => [] | _ => 10%N :: restOfInput end)
              agent
              (providerID selectedModel ++ lit "/" ++ modelID selectedModel)
              variant
              (filter (λ x, is_file x = true) nonTextParts)) s
    else
      sendPrompt sid selectedModel variant agent inputText nonTextParts s in
  let s := emit (HistoryAppend (prompt_input s) (prompt_parts s) currentMode) s in
  let s := extmarks_clear s in
  let s := setStore_prompt [] [] s in
  let s := setStore_extmarkToPartIndex ∅ s in
  let s := emit OnSubmit s in
  let s := if truthy (sessionID (props s)) then s else emit (NavigateLater sid) s in
  input_clear s.

(** [submit()], up to the point where it may wait for a new session. *)
Definition submit (s : State) : State :=
  if disabled (props s) then s else
  let trimmed := trim (prompt_input s) in
  if autocomplete_visible (env s)
     && negb (startsWith trimmed (lit "/usage"))
     && negb (startsWith trimmed (lit "/codexwho"))
     && negb (startsWith trimmed (lit "/codexswap")) then s else
  if decide (prompt_input s = []) then s else
  if bool_decide (trimmed = lit "exit" ∨ trimmed = lit "quit"
                  ∨ trimmed = lit ":q") then emit Exit s else
  if startsWith trimmed (lit "/usage") then
    clearPrompt (emit (ShowUsage trimmed) s) else
  if startsWith trimmed (lit "/codexwho") then
    clearPrompt (emit ShowCodexWho s) else
  if startsWith trimmed (lit "/codexswap") then
    clearPrompt (emit (ShowCodexSwap trimmed) s) else
  let payload := resolvePromptInput (composition s) in
  let inputText := payload.1 in
  let nonTextParts := payload.2 in
  match editingQueuedPrompt s with
  | Some queuedEditing =>
      let s := setQueuedPrompts
                 (editInPlace (q_id queuedEditing) inputText nonTextParts) s in
      let s := emit (HistoryAppend (prompt_input s) (prompt_parts s) (mode s)) s in
      let s := setQueuedCursor None s in
      let s := setQueuedEditID None s in
      let s := clearPrompt s in
      emit (ToastShow success (lit "Queued message updated") 1500) s
  | None =>
      match model_current (env s) with
      | None => promptModelWarning s
      | Some selectedModel =>
          match sessionID (props s) with
          | Some ((_ :: _) as sid) =>
              submit_send sid inputText nonTextParts selectedModel s
          | _ =>
              let s := emit SessionCreate s in
              set_creating
                (r_creating (run s) ++
                   [{| ps_inputText := inputText;
                       ps_nonTextParts := nonTextParts;
                       ps_selectedModel := selectedModel |}]) s
          end
      end
  end.

(** [submit()] resumes when [session.create] of its [i]-th waiting call
    resolves with the id [sid]; a call that rejects is dropped. *)
Definition submit_resume (i : nat) (created : option jsstring) (s : State)
    : State :=
  match r_creating (run s) !! i with
  | None => s
  | Some p =>
      let s := set_creating (delete i (r_creating (run s))) s in
      match created with
      | None => s
      | Some sid =>
          submit_send sid (ps_inputText p) (ps_nonTextParts p)
            (ps_selectedModel p) s
      end
  end.

(** [editQueued(direction)] *)
Definition editQueued (direction : Z) (s : State) : State :=
  if disabled (props s) then s else
  if negb (truthy (sessionID (props s))) then s else
  if decide (mode s ≠ normal) then s else
  let items := queuedPromptsForSessionNewest s in
  let len := Z.of_nat (length items) in
  if len =? 0 then s else
  let next :=
    match queuedCursor s with
    | None => if direction =? -1 then 0 else len - 1
    | Some current =>
        let index := current + direction in
        if index <? 0 then len - 1
        else if index >=? len then 0
        else index
    end in
  match at_index items next with
  | None => s
  | Some target =>
      let s := setQueuedCursor (Some next) s in
      let s := setQueuedEditID (Some (q_id target)) s in
      let s := input_setText (q_inputText target) s in
      let s := setStore_prompt (q_inputText target) (q_parts target) s in
      restoreExtmarksFromParts (q_parts target) s
  end.

(** [queueAtEndOfLoop()]; [id] is the identifier [Identifier.ascending]
    returns for the queued prompt. *)
Definition queueAtEndOfLoop (id : jsstring) (s : State) : State :=
  if disabled (props s) then s else
  if autocomplete_visible (env s) then s else
  if negb (truthy (sessionID (props s)))
     || bool_decide (status s = idle)
     || bool_decide (mode s ≠ normal) then submit s else
  let trimmed := trim (prompt_input s) in
  if bool_decide (trimmed = []) || startsWith trimmed (lit "/") then submit s
  else
  match model_current (env s) with
  | None => promptModelWarning s
  | Some selectedModel =>
      let payload := resolvePromptInput (composition s) in
      let queued := S (length (queuedPromptsForSession s)) in
      let item :=
        {| q_id := id;
           q_sessionID := default [] (sessionID (props s));
           q_inputText := payload.1;
           q_parts := payload.2;
           q_agent := agent_current (env s);
           q_model := {| providerID := providerID selectedModel;
                         modelID := modelID selectedModel |};
           q_variant := variant_current (env s) |} in
      let s := setQueuedPrompts (λ items, items ++ [item]) s in
      let s := log_enqueued item s in
      let s := setQueuedCursor None s in
      let s := setQueuedEditID None s in
      let s := emit (HistoryAppend (prompt_input s) (prompt_parts s) (mode s)) s in
      let s := clearPrompt s in
      emit (ToastShow info
              (lit "Queued for end of loop (" ++ JS.of_nat queued ++ lit ")")
              2000) s
  end.

(** [onSelect] of the command [session.interrupt].  The command is enabled
    while the session is not idle; the handler itself does not read the
    status. *)
Definition interruptSession (s : State) : State :=
  if autocomplete_visible (env s) then s else
  if negb (input_focused (env s)) then s else
  if decide (mode s = shell) then setStore_mode normal s else
  match sessionID (props s) with
  | Some ((_ :: _) as sid) =>
      let s := setStore_interrupt (interrupt s + 1) s in
      let s :=
        if interrupt s >=? 2 then
          let s := emit (SessionAbort sid) s in
          let s := setQueueGate paused s in
          setStore_interrupt 0 s
        else s in
      emit DialogClear s
  | _ => s
  end.

(** The timer an interrupt starts: after five seconds the count is reset. *)
Definition interruptTimeout (s : State) : State := setStore_interrupt 0 s.

(** The session of the component changes: the deferred effect on
    [props.sessionID] opens the gate. *)
Definition setProps (p : Props) (s : State) : State :=
  let changed := bool_decide (sessionID p ≠ sessionID (props s)) in
  let s := {| props := p; env := env s; store := store s; input := input s;
              sig := sig s; run := run s |} in
  if changed then setQueueGate open s else s.

(** The collaborators change what the component reads from them. *)
Definition setEnv (e : Env) (s : State) : State :=
  {| props := props s; env := e; store := store s; input := input s;
     sig := sig s; run := run s |}.

(** The status feed reports the status of a session. *)
Definition setStatus (sid : jsstring) (st : StatusType) (s : State) : State :=
  let e := env s in
  setEnv
    {| autocomplete_visible := autocomplete_visible e;
       input_focused := input_focused e;
       model_current := model_current e;
       agent_current := agent_current e;
       variant_current := variant_current e;
       command_names := command_names e;
       provider_length := provider_length e;
       session_status := <[sid := st]> (session_status e) |} s.

(** The [sendPrompt] call of the [i]-th pending dispatch settles: [catch]
    shows a toast when it rejected, [finally] clears the flag. *)
Definition dispatchSettled (i : nat) (ok : bool) (s : State) : State :=
  match inflight s !! i with
  | None => s
  | Some _ =>
      let s := set_inflight (delete i (inflight s)) s in
      let s := if ok then s
               else emit (ToastShow error
                            (lit "Failed to send queued prompt") 3000) s in
      setSendingQueuedPrompt false s
  end.

(** *** The effects *)

(** The effect that clears the editing state when its target is gone. *)
Definition cleanupEffect (s : State) : State :=
  match queuedEditID s with
  | Some ((_ :: _) as current) =>
      if bool_decide (Exists (λ item, q_id item = current)
                        (queuedPromptsForSession s)) then s
      else setQueuedCursor None (setQueuedEditID None s)
  | _ => s
  end.

(** The effect that moves the gate with the status. *)
Definition gateEffect (s : State) : State :=
  match queueGate s with
  | open | paused => s
  | wait_busy =>
      if decide (status s = idle) then s else setQueueGate wait_idle s
  | wait_idle =>
      if decide (status s ≠ idle) then s else setQueueGate open s
  end.

(** The effect that sends the head of the queue. *)
Definition dispatchEffect (s : State) : State :=
  if decide (queueGate s ≠ open) then s else
  if sendingQueuedPrompt s then s else
  if truthy (queuedEditID s) then s else
  if decide (status s ≠ idle) then s else
  match queuedPromptsForSession s !! 0%nat with
  | None => s
  | Some next =>
      let s := setSendingQueuedPrompt true s in
      let s := setQueuedPrompts (removeQueued (q_id next)) s in
      let s := log_dispatched next s in
      let s := sendPrompt (q_sessionID next) (q_model next) (q_variant next)
                 (q_agent next) (q_inputText next) (q_parts next) s in
      set_inflight (inflight s ++ [next]) s
  end.

(** One round of the effects, in the order the component creates them. *)
Definition effects (s : State) : State :=
  dispatchEffect (gateEffect (cleanupEffect s)).

(** *** Events and runs *)

(** What happens to the component: its props or collaborators change, the
    user edits the composition or presses a key the component handles, a
    timer fires, a promise settles. *)
Inductive Event :=
| EvProps (p : Props)
| EvEnv (e : Env)
| EvStatus (sid : jsstring) (st : StatusType)
| EvContentChange (value : jsstring) (marks : list Extmark)
| EvCompose (st : Store) (ta : Textarea)
| EvSubmit
| EvSessionCreated (i : nat) (created : option jsstring)
| EvQueueAtEndOfLoop (id : jsstring)
| EvEditQueued (direction : Z)
| EvInterrupt
| EvInterruptTimeout
| EvDispatchSettled (i : nat) (ok : bool).

(** The handler of an event.  [EvCompose] stands for every other change of
    the composition (paste, history, stash, external editor, shell mode):
    those write the store and the text area only. *)
Definition handle (e : Event) (s : State) : State :=
  match e with
  | EvProps p => setProps p s
  | EvEnv e => setEnv e s
  | EvStatus sid st => setStatus sid st s
  | EvContentChange value marks => onContentChange value marks s
  | EvCompose st ta =>
      {| props := props s; env := env s; store := st; input := ta;
         sig := sig s; run := run s |}
  | EvSubmit => submit s
  | EvSessionCreated i created => submit_resume i created s
  | EvQueueAtEndOfLoop id => queueAtEndOfLoop id s
  | EvEditQueued direction => editQueued direction s
  | EvInterrupt => interruptSession s
  | EvInterruptTimeout => interruptTimeout s
  | EvDispatchSettled i ok => dispatchSettled i ok s
  end.

(** An event is handled, then the effects run.  The effects read signals
    only, and a handler that writes several signals enables no effect in
    between that its last write does not enable; the round is run once, a
    second round changes nothing. *)
Definition step (s : State) (e : Event) : State := effects (handle e s).

Definition run_events (s : State) (es : list Event) : State := foldl step s es.

(** The component when it is mounted. *)
Definition init : State :=
  {| props := {| disabled := false; sessionID := None |};
     env := {| autocomplete_visible := false; input_focused := true;
               model_current := None; agent_current := lit "build";
               variant_current := None; command_names := [];
               provider_length := 0; session_status := ∅ |};
     store := {| st_input := []; st_parts := []; st_mode := normal;
                 st_extmarkToPartIndex := ∅; st_interrupt := 0 |};
     input := {| ta_plainText := []; ta_extmarks := []; ta_nextId := 1 |};
     sig := {| sig_queuedPrompts := []; sig_sendingQueuedPrompt := false;
               sig_queuedEditID := None; sig_queuedCursor := None;
               sig_queueGate := open |};
     run := {| r_inflight := []; r_creating := []; r_outputs := [];
               r_enqueued := []; r_dispatched := [] |} |}.

(** [Identifier.ascending] never returns an identifier it returned before. *)
Definition fresh_id (s : State) (e : Event) : Prop :=
  match e with
  | EvQueueAtEndOfLoop id => id ∉ q_id <$> enqueued s
  | _ => True
  end.

Inductive reachable : State → Prop :=
| reachable_init : reachable init
| reachable_step s e : reachable s → fresh_id s e → reachable (step s e).

(** ** Concrete compositions *)

(** A text of 81 letters. *)
Definition text81 : jsstring := replicate 81 97%N.

(** A text with leading, trailing and repeated white space. *)
Definition text_spaced : jsstring := lit "  fix   the
  tests ".

(** A collapsed paste and an image in a text. *)
Definition comp_paste : Composition :=
  {| c_input := lit "see [Pasted ~3 lines] and [Image 1] ok";
     c_parts := [FilePart (lit "image/png") (lit "clipboard") (lit "data:")
                   (Some {| src_start := 26; src_end := 35;
                            src_value := lit "[Image 1]" |});
                 TextPart (lit "one
two
three")
                   (Some {| src_start := 4; src_end := 21;
                            src_value := lit "[Pasted ~3 lines]" |})];
     c_extmarkToPartIndex := {[ 1 := 1%nat; 2 := 0%nat ]};
     c_extmarks := [ {| e_id := 2; e_start := 26; e_end := 35 |};
                     {| e_id := 1; e_start := 4; e_end := 21 |} ] |}.

(** A text part that stores the empty text behind its placeholder. *)
Definition comp_empty_text : Composition :=
  {| c_input := lit "[Pasted ~3 lines] x";
     c_parts := [TextPart []
                   (Some {| src_start := 0; src_end := 17;
                            src_value := lit "[Pasted ~3 lines]" |})];
     c_extmarkToPartIndex := {[ 1 := 0%nat ]};
     c_extmarks := [ {| e_id := 1; e_start := 0; e_end := 17 |} ] |}.

(** A file and an agent mention, no text part. *)
Definition comp_no_text : Composition :=
  {| c_input := lit "ask @plan about [Image 1]";
     c_parts := [AgentPart (lit "plan")
                   (Some {| src_start := 4; src_end := 9;
                            src_value := lit "@plan" |});
                 FilePart (lit "image/png") (lit "clipboard") (lit "data:")
                   (Some {| src_start := 16; src_end := 25;
                            src_value := lit "[Image 1]" |})];
     c_extmarkToPartIndex := {[ 1 := 0%nat; 2 := 1%nat ]};
     c_extmarks := [ {| e_id := 1; e_start := 4; e_end := 9 |};
                     {| e_id := 2; e_start := 16; e_end := 25 |} ] |}.

(** ** Invariants of the runs *)

(** The flag is set exactly while one dispatch is pending. *)
Definition single_flight (s : State) : Prop :=
  length (inflight s) = if sendingQueuedPrompt s then 1%nat else 0%nat.

(** A queued prompt without what an edit in place may change: its text and
    its parts. *)
Definition slot (q : QueuedPrompt) : QueuedPrompt :=
  {| q_id := q_id q; q_sessionID := q_sessionID q; q_inputText := [];
     q_parts := []; q_agent := q_agent q; q_model := q_model q;
     q_variant := q_variant q |}.

(** First in, first out, per session: the prompts dispatched so far followed
    by the prompts still queued are the prompts enqueued, in the order they
    were enqueued, up to their text and parts. *)
Definition fifo (s : State) : Prop :=
  ∀ sid,
    slot <$> (forSession sid (dispatched s) ++ forSession sid (queuedPrompts s))
    = slot <$> forSession sid (enqueued s).

(** The ids in the queue and in the history of dispatches are ids of
    enqueued prompts and pairwise different, and every pending dispatch was
    taken off the queue. *)
Definition queue_inv (s : State) : Prop :=
  q_id <$> (dispatched s ++ queuedPrompts s) ⊆ q_id <$> enqueued s
  ∧ NoDup (q_id <$> (dispatched s ++ queuedPrompts s))
  ∧ fifo s
  ∧ inflight s ⊆ dispatched s.

(** The gate has followed the status: it does not wait for a status that is
    already there. *)
Definition gate_settled (s : State) : Prop :=
  (queueGate s = wait_busy → status s = idle)
  ∧ (queueGate s = wait_idle → status s ≠ idle).

(** The command that interrupts the session gets past its guards. *)
Definition interrupt_armed (s : State) : Prop :=
  autocomplete_visible (env s) = false
  ∧ input_focused (env s) = true
  ∧ mode s = normal
  ∧ truthy (sessionID (props s)) = true.

(** [submit] sends the prompt directly: the component is enabled, the input
    is not empty and is none of the commands the component handles itself,
    no queued prompt is being edited, a model is selected and there is a
    session. *)
Definition submits_directly (s : State) : Prop :=
  let trimmed := trim (prompt_input s) in
  disabled (props s) = false
  ∧ autocomplete_visible (env s) = false
  ∧ prompt_input s ≠ []
  ∧ trimmed ≠ lit "exit" ∧ trimmed ≠ lit "quit" ∧ trimmed ≠ lit ":q"
  ∧ startsWith trimmed (lit "/usage") = false
  ∧ startsWith trimmed (lit "/codexwho") = false
  ∧ startsWith trimmed (lit "/codexswap") = false
  ∧ editingQueuedPrompt s = None
  ∧ model_current (env s) ≠ None
  ∧ truthy (sessionID (props s)) = true.

(** The moves of the gate in one step: it stays; a change of the props opens
    it; an interrupt pauses it; a submit takes it from paused to waiting for
    the session to get busy (and on to waiting for idle when the session is
    busy already); the status takes it from there to waiting for idle and
    from waiting for idle to open. *)
Definition gate_move (g : Gate) (e : Event) (g' : Gate) : Prop :=
  g' = g
  ∨ ((∃ p, e = EvProps p) ∧ g' = open)
  ∨ (e = EvInterrupt ∧ g' = paused)
  ∨ (g = paused
     ∧ (e = EvSubmit ∨ (∃ id, e = EvQueueAtEndOfLoop id)
        ∨ (∃ i created, e = EvSessionCreated i created))
     ∧ (g' = wait_busy ∨ g' = wait_idle))
  ∨ (g = wait_busy ∧ g' = wait_idle)
  ∨ (g = wait_idle ∧ g' = open).

(** The identifiers of a run are fresh. *)
Fixpoint fresh_run (s : State) (es : list Event) : Prop :=
  match es with
  | [] => True
  | e :: es' => fresh_id s e ∧ fresh_run (step s e) es'
  end.

#[global] Instance fresh_id_dec s e : Decision (fresh_id s e).
Proof. destruct e; simpl; apply _. Defined.

#[global] Instance fresh_run_dec s es : Decision (fresh_run s es).
Proof. revert s. induction es as [|e es IH]; intros s; simpl; apply _. Defined.

(** ** Concrete runs *)

Definition ses_1 : jsstring := lit "ses_1".

(** A model is selected and the session [ses_1] is open and busy. *)
Definition env_ready : Env :=
  {| autocomplete_visible := false; input_focused := true;
     model_current := Some {| providerID := lit "openai";
                              modelID := lit "gpt-5" |};
     agent_current := lit "build"; variant_current := None;
     command_names := [lit "init"]; provider_length := 1;
     session_status := {[ ses_1 := busy ]} |}.

Definition setup_events : list Event :=
  [ EvEnv env_ready; EvProps {| disabled := false; sessionID := Some ses_1 |} ].

(** Three prompts are queued while the session is busy. *)
Definition queue3_events : list Event :=
  setup_events ++
  [ EvContentChange (lit "message 1") []; EvQueueAtEndOfLoop (lit "prt_1");
    EvContentChange (lit "message 2") []; EvQueueAtEndOfLoop (lit "prt_2");
    EvContentChange (lit "message 3") []; EvQueueAtEndOfLoop (lit "prt_3") ].

Definition queue3 : State := run_events init queue3_events.

(** The second prompt is loaded into the input, changed and committed; then
    the session turns idle and the dispatches settle one by one, the second
    of them with a rejection. *)
Definition edit_drain_events : list Event :=
  queue3_events ++
  [ EvEditQueued (-1); EvEditQueued 1;
    EvContentChange (lit "message 2xyz") []; EvSubmit;
    EvStatus ses_1 idle;
    EvDispatchSettled 0 true; EvDispatchSettled 0 false;
    EvDispatchSettled 0 true ].

Definition edit_drain : State := run_events init edit_drain_events.

(** The first of the three queued prompts is in flight. *)
Definition first_inflight : State :=
  run_events queue3 [ EvStatus ses_1 idle ].

(** The gate from interrupt to open again: two interrupts while the session
    is busy, the session turns idle, a prompt is typed and submitted, the
    session gets busy and idle again. *)
Definition run_paused : State :=
  run_events queue3 [ EvInterrupt; EvInterrupt ].

Definition run_paused_idle : State :=
  run_events run_paused [ EvStatus ses_1 idle;
                      EvContentChange (lit "do this first") [] ].

Definition run_wait_busy : State := run_events run_paused_idle [ EvSubmit ].

Definition run_wait_idle : State :=
  run_events run_wait_busy [ EvStatus ses_1 busy ].

Definition run_reopened : State :=
  run_events run_wait_idle [ EvStatus ses_1 idle ].

(** The newest queued prompt is being edited when the component is given
    another session; the effects have not run yet. *)
Definition stale_edit : State :=
  handle (EvProps {| disabled := false; sessionID := Some (lit "ses_2") |})
    (run_events queue3 [ EvEditQueued (-1) ]).

(** The session is idle, the input is [/usage] and the autocomplete popup is
    open. *)
Definition usage_popup : State :=
  run_events init
    [ EvEnv {| autocomplete_visible := true; input_focused := true;
               model_current := model_current env_ready;
               agent_current := lit "build"; variant_current := None;
               command_names := []; provider_length := 1;
               session_status := {[ ses_1 := idle ]} |};
      EvProps {| disabled := false; sessionID := Some ses_1 |};
      EvContentChange (lit "/usage") [] ].

(** The session is idle and the input holds a prompt. *)
Definition idle_prompt : State :=
  run_events init
    [ EvEnv env_ready; EvProps {| disabled := false; sessionID := Some ses_1 |};
      EvStatus ses_1 idle; EvContentChange (lit "hello") [] ].

(** ** Further properties of the queue: definitions *)

(** A queued prompt as the component builds it: its parts are not text parts
    (the text parts are expanded into its text) and it belongs to a
    session. *)
Definition queued_ok (q : QueuedPrompt) : Prop :=
  Forall (λ p, is_text p = false) (q_parts q) ∧ q_sessionID q ≠ [].

(** A queued prompt that is being edited is in the queue of the session. *)
Definition editing_present (s : State) : Prop :=
  ∀ id, queuedEditID s = Some id → id ≠ [] →
        id ∈ q_id <$> queuedPromptsForSession s.

(** The calls that send something to a session, or create one. *)
Definition is_send (o : Output) : bool :=
  match o with
  | SessionCreate | SessionShell _ _ _ _ | SessionCommand _ _ _ _ _ _ _
  | SessionPrompt _ _ _ _ _ _ => true
  | _ => false
  end.


(** [queueAtEndOfLoop] gets to the point where it queues the input. *)
Definition queues_input (s : State) : Prop :=
  disabled (props s) = false
  ∧ autocomplete_visible (env s) = false
  ∧ truthy (sessionID (props s)) = true
  ∧ status s ≠ idle
  ∧ mode s = normal
  ∧ trim (prompt_input s) ≠ []
  ∧ startsWith (trim (prompt_input s)) (lit "/") = false
  ∧ model_current (env s) ≠ None.


(** The newest of three queued prompts is loaded into the input and
    changed. *)
Definition editing_draft : State :=
  run_events queue3
    [ EvEditQueued (-1); EvContentChange (lit "message 3 and more") [] ].

Definition gpt5 : Model :=
  {| providerID := lit "openai"; modelID := lit "gpt-5" |}.

(** A prompt is typed before a provider is connected. *)
Definition no_model_prompt : State :=
  run_events init
    [ EvProps {| disabled := false; sessionID := Some ses_1 |};
      EvContentChange (lit "hello") [] ].

(** ** Extmarks and parts: definitions *)

(** The text [resolvePromptInput] puts in the place of the placeholder of a
    part: the text of a text part that has one. *)
Definition part_text (p : Part) : option jsstring :=
  match p with
  | TextPart ((_ :: _) as text) _ => Some text
  | _ => None
  end.

(** The part has a placeholder in the input: [virtualText] is not empty in
    [restoreExtmarksFromParts]. *)
Definition has_virtual (p : Part) : bool :=
  match part_source p with
  | Some {| src_value := _ :: _ |} => true
  | _ => false
  end.

(** The extmarks have different ids, and no two of them are mapped to the
    same part. *)
Definition marks_wf (old : gmap Z nat) (marks : list Extmark) : Prop :=
  NoDup (e_id <$> marks) ∧ NoDup (omap (λ m, old !! e_id m) marks).

(** The part an extmark is mapped to, moved to the range of the extmark. *)
Definition moved_part (old : gmap Z nat) (ps : list Part) (m : Extmark)
    : option Part :=
  match old !! e_id m with
  | Some i => (λ p, move_source p (e_start m) (e_end m)) <$> ps !! i
  | None => None
  end.

(** The composition [comp_paste] after two characters were typed at the
    start of the input: the text area has moved the extmarks, the parts have
    the ranges of before. *)
Definition typed_before_paste : State :=
  {| props := props init; env := env init;
     store := {| st_input := c_input comp_paste;
                 st_parts := c_parts comp_paste;
                 st_mode := normal;
                 st_extmarkToPartIndex := c_extmarkToPartIndex comp_paste;
                 st_interrupt := 0 |};
     input := {| ta_plainText := lit "> " ++ c_input comp_paste;
                 ta_extmarks := [ {| e_id := 1; e_start := 6; e_end := 23 |};
                                  {| e_id := 2; e_start := 28; e_end := 37 |} ];
                 ta_nextId := 3 |};
     sig := sig init; run := run init |}.

(** A call of the command [init] with an argument on the first line and a
    second line. *)
Definition slash_init : jsstring := lit "/init now
and then".

(** ** Pasting: line endings *)

(** [s.replace(/\r\n/g, "\n")] *)
Fixpoint replace_crlf (s : jsstring) : jsstring :=
  match s with
  | [] => []
  | c :: s' =>
      match s' with
      | d :: r =>
          if ((c =? 13) && (d =? 10))%N then 10%N :: replace_crlf r
          else c :: replace_crlf s'
      | [] => [c]
      end
  end.

(** [s.replace(/\r/g, "\n")] *)
Definition replace_cr (s : jsstring) : jsstring :=
  (λ c, if (c =? 13)%N then 10%N else c) <$> s.

(** [normalizedText] of [onPaste]: the line endings of the pasted text are
    normalized, CRLF first, then any remaining CR. *)
Definition normalizeLineEndings (text : jsstring) : jsstring :=
  replace_cr (replace_crlf text).

(** [(pastedContent.match(/\n/g)?.length ?? 0) + 1] *)
Definition lineCount (pastedContent : jsstring) : nat :=
  length (filter (λ c, c = 10%N) pastedContent) + 1.

(** Two lines with a CRLF between them, as a terminal on Windows pastes
    them. *)
Definition crlf_text : jsstring := lit "one" ++ [13; 10]%N ++ lit "two".

(** ** The retry message under the input *)

(** [s.includes(sub)] *)
Fixpoint includes (s sub : jsstring) : bool :=
  startsWith s sub
  || match s with
     | [] => false
     | _ :: s' => includes s' sub
     end.

(** The memo [message] of the retry status, for the message [m] of the
    status. *)
Definition retryMessage (m : jsstring) : jsstring :=
  if includes m (lit "exceeded your current quota") && includes m (lit "gemini")
  then lit "gemini is way too hot right now"
  else if Z.of_nat (length m) >? 80 then slice m 0 80 ++ lit "..."
  else m.

(** The memo [isTruncated]. *)
Definition isTruncated (m : jsstring) : bool := Z.of_nat (length m) >? 120.

(** [handleMessageClick]: the title and the text of the alert it shows, if
    it shows one. *)
Definition handleMessageClick (m : jsstring) : option (jsstring * jsstring) :=
  if isTruncated m then Some (lit "Retry Error", m) else None.

(** What [retryText] puts after the message, before the retry info. *)
Definition truncatedHint (m : jsstring) : jsstring :=
  if isTruncated m then lit " (click to expand)" else [].

(** ** The external editor *)

(** [s.indexOf(sub)], [None] for [-1]. *)
Fixpoint indexOf (s sub : jsstring) : option nat :=
  if startsWith s sub then Some 0%nat
  else match s with
       | [] => None
       | _ :: s' => S <$> indexOf s' sub
       end.

(** [virtualText] in the editor command: the placeholder of a file or agent
    part. *)
Definition virtualText (part : Part) : jsstring :=
  match part with
  | FilePart _ _ _ (Some src) => src_value src
  | AgentPart _ (Some src) => src_value src
  | _ => []
  end.

(** The body of the [map] over the non-text parts: the part where its
    placeholder is found in the edited content, [None] when the placeholder
    is not found. *)
Definition relocate (content : jsstring) (part : Part) : option Part :=
  match virtualText part with
  | [] => Some part
  | (_ :: _) as v =>
      match indexOf content v with
      | None => None
      | Some newStart =>
          Some (move_source part (Z.of_nat newStart)
                  (Z.of_nat newStart + Z.of_nat (length v)))
      end
  end.

(** The editor command after the editor has returned [content];
    [nonTextParts] are the parts that are not text parts of the prompt the
    editor was opened with. *)
Definition editorReturned (nonTextParts : list Part) (content : jsstring)
    (s : State) : State :=
  match content with
  | [] => s
  | _ :: _ =>
      let s := input_setText content s in
      let updatedNonTextParts := omap (relocate content) nonTextParts in
      let s := setStore_prompt content updatedNonTextParts s in
      restoreExtmarksFromParts updatedNonTextParts s
  end.

(** Two mentions of the same agent, as the editor command finds them when
    the editor returns. *)
Definition two_mentions : list Part :=
  [ AgentPart (lit "plan")
      (Some {| src_start := 4; src_end := 9; src_value := lit "@plan" |});
    AgentPart (lit "plan")
      (Some {| src_start := 14; src_end := 19; src_value := lit "@plan" |}) ].


(** The newest queued prompt is loaded into the input, and the input is
    emptied. *)
Definition editing_emptied : State :=
  run_events queue3 [ EvEditQueued (-1); EvContentChange [] [] ].
(* ================================================================== *)
(** * Properties *)

(** ** Strings and slices *)

Lemma slice_prefix {A} (t : list A) (b : Z) :
  0 <= b <= Z.of_nat (length t) → slice t 0 b = take (Z.to_nat b) t.
Proof.
  intros Hb. unfold slice, clamp_index.
  assert ((0 <? 0) = false) as -> by reflexivity.
  assert ((b <? 0) = false) as -> by lia.
  rewrite !Z.min_l by lia. rewrite Z.sub_0_r, Z.max_l by lia.
  reflexivity.
Qed.

Lemma slice_from_suffix {A} (t : list A) (b : Z) :
  0 <= b <= Z.of_nat (length t) → slice_from t b = drop (Z.to_nat b) t.
Proof.
  intros Hb. unfold slice_from, slice, clamp_index.
  assert ((b <? 0) = false) as -> by lia.
  assert ((Z.of_nat (length t) <? 0) = false) as -> by lia.
  rewrite (Z.min_l b) by lia. rewrite Z.min_id.
  apply take_ge. rewrite length_drop. lia.
Qed.

(** ** The queue preview *)

Lemma queuedPreview_cases (inputText : jsstring) :
  let oneLine := trim (replace_ws_runs false inputText) in
  queuedPreview inputText =
    if decide (length oneLine ≤ 80)%nat then oneLine
    else take 77 oneLine ++ lit "...".
Proof.
  intros oneLine. unfold queuedPreview. fold oneLine.
  destruct (Z.leb_spec (Z.of_nat (length oneLine)) 80);
    destruct (decide (length oneLine ≤ 80)%nat); try lia; [done|].
  rewrite slice_prefix by lia. reflexivity.
Qed.

(** C8, as amended: when the white-space normalised text of a queued prompt
    is longer than 80 code units, the preview is its first 77 code units
    followed by three dots, 80 code units in all; a normalised text of at
    most 80 code units is the preview as it is. *)
Theorem queuedPreview_truncates (inputText : jsstring) :
  let oneLine := trim (replace_ws_runs false inputText) in
  ((length oneLine ≤ 80)%nat → queuedPreview inputText = oneLine) ∧
  ((80 < length oneLine)%nat →
     queuedPreview inputText = take 77 oneLine ++ lit "..." ∧
     length (queuedPreview inputText) = 80%nat).
Proof.
  intros oneLine. pose proof (queuedPreview_cases inputText) as E.
  cbv zeta in E. fold oneLine in E. split; intros H.
  - rewrite E. by rewrite decide_True.
  - rewrite E, decide_False by lia. split; [done|].
    rewrite length_app, length_take. change (length (lit "...")) with 3%nat.
    lia.
Qed.

Lemma queuedPreview_truncates_witness :
  queuedPreview text_spaced = lit "fix the tests" ∧
  queuedPreview text81 = replicate 77 97%N ++ lit "...".
Proof.
  split.
  - apply (proj1 (queuedPreview_truncates text_spaced)). vm_compute. lia.
  - apply (proj2 (queuedPreview_truncates text81)). vm_compute. lia.
Defined.

(** C8, as stated, fails: the preview of a text of 81 letters is not its
    first 80 letters followed by three dots. *)
Lemma queuedPreview_not_first_80 :
  (80 < length (trim (replace_ws_runs false text81)))%nat ∧
  queuedPreview text81 ≠ take 80 text81 ++ lit "...".
Proof.
  split; [vm_compute; lia|].
  intros H. vm_compute in H. discriminate H.
Qed.

(** ** Resolving the composition *)

Lemma resolve_step_stored c t m :
  resolve_step c t m =
    match stored_text c m with
    | Some text => slice t 0 (e_start m) ++ text ++ slice_from t (e_end m)
    | None => t
    end.
Proof.
  unfold resolve_step, stored_text.
  destruct (c_extmarkToPartIndex c !! e_id m) as [i|]; [|done].
  destruct (c_parts c !! i) as [[[|]| |]|]; done.
Qed.

Lemma segment_0 (raw : jsstring) (b : Z) :
  segment raw 0 b = take (Z.to_nat b) raw.
Proof. unfold segment. by rewrite Nat.sub_0_r. Qed.

Lemma segment_split (raw : jsstring) (a b d : Z) :
  0 <= a <= b → b <= d →
  segment raw a b ++ segment raw b d = segment raw a d.
Proof.
  intros Hab Hbd. unfold segment.
  replace (Z.to_nat d - Z.to_nat a)%nat
    with ((Z.to_nat b - Z.to_nat a) + (Z.to_nat d - Z.to_nat b))%nat by lia.
  rewrite <- take_take_drop, drop_drop.
  by replace (Z.to_nat a + (Z.to_nat b - Z.to_nat a))%nat
    with (Z.to_nat b) by lia.
Qed.

Lemma expand_asc_snoc c cursor asc m stop :
  expand_asc c cursor (asc ++ [m]) stop =
    expand_asc c cursor asc (e_start m)
    ++ default (segment (c_input c) (e_start m) (e_end m)) (stored_text c m)
    ++ segment (c_input c) (e_end m) stop.
Proof.
  revert cursor. induction asc as [|x asc IH]; intros cursor; simpl; [done|].
  by rewrite IH, <- !(assoc_L (++)).
Qed.

Lemma asc_chain_bounds from asc stop : asc_chain from asc stop → from <= stop.
Proof.
  revert from. induction asc as [|x asc IH]; intros from; simpl; [done|].
  intros (? & ? & H). apply IH in H. lia.
Qed.

Lemma asc_chain_snoc from asc m stop :
  asc_chain from (asc ++ [m]) stop ↔
  asc_chain from asc (e_start m) ∧ e_start m < e_end m ∧ e_end m <= stop.
Proof.
  revert from. induction asc as [|x asc IH]; intros from; simpl.
  - tauto.
  - rewrite IH. tauto.
Qed.

(** Walking the markers from the last one to the first one leaves the text
    before the marker at hand as it was: the prefix [take stop raw] is the
    part of the original text no splice has touched. *)
Lemma foldl_resolve_step c asc :
  ∀ stop suffix,
    asc_chain 0 asc stop → stop <= Z.of_nat (length (c_input c)) →
    foldl (resolve_step c) (take (Z.to_nat stop) (c_input c) ++ suffix)
      (reverse asc)
    = expand_asc c 0 asc stop ++ suffix.
Proof.
  induction asc as [|m asc IH] using rev_ind; intros stop suffix Hc Hs.
  - simpl. by rewrite segment_0.
  - apply asc_chain_snoc in Hc as (Hc & Hm & He).
    pose proof (asc_chain_bounds _ _ _ Hc) as H0.
    rewrite reverse_snoc. simpl. rewrite resolve_step_stored.
    set (raw := c_input c) in *.
    assert (length (take (Z.to_nat stop) raw) = Z.to_nat stop) as Hlen
      by (rewrite length_take; lia).
    assert (slice (take (Z.to_nat stop) raw ++ suffix) 0 (e_start m)
            = take (Z.to_nat (e_start m)) raw) as Hbefore.
    { rewrite slice_prefix by (rewrite length_app, Hlen; lia).
      rewrite take_app_le by lia. rewrite take_take. f_equal. lia. }
    assert (slice_from (take (Z.to_nat stop) raw ++ suffix) (e_end m)
            = segment raw (e_end m) stop ++ suffix) as Hafter.
    { rewrite slice_from_suffix by (rewrite length_app, Hlen; lia).
      rewrite drop_app_le by lia. unfold segment.
      by rewrite skipn_firstn_comm. }
    rewrite expand_asc_snoc. fold raw. rewrite <- !(assoc_L (++)).
    destruct (stored_text c m) as [text|]; simpl.
    + rewrite Hbefore, Hafter. apply IH; [done | lia].
    + assert (take (Z.to_nat stop) raw
              = take (Z.to_nat (e_start m)) raw
                ++ segment raw (e_start m) (e_end m)
                ++ segment raw (e_end m) stop) as ->.
      { rewrite segment_split by lia. rewrite <- !segment_0.
        symmetry. apply segment_split; lia. }
      rewrite <- !(assoc_L (++)). apply IH; [done | lia].
Qed.

(** *** The sort *)

Lemma insert_desc_perm x l : insert_desc x l ≡ₚ x :: l.
Proof.
  induction l as [|y l IH]; simpl; [done|].
  destruct (e_start y <=? e_start x); [done|].
  by rewrite IH, Permutation_swap.
Qed.

Lemma sort_desc_perm l : sort_desc l ≡ₚ l.
Proof.
  induction l as [|x l IH]; simpl; [done|].
  fold (sort_desc l). by rewrite insert_desc_perm, IH.
Qed.

Lemma insert_desc_sorted x l :
  StronglySorted starts_not_before l →
  StronglySorted starts_not_before (insert_desc x l).
Proof.
  induction 1 as [|y l Hl IH Hy]; simpl.
  - repeat constructor.
  - destruct (Z.leb_spec (e_start y) (e_start x)).
    + constructor; [by constructor|].
      constructor; [done|].
      eapply Forall_impl; [exact Hy|]. unfold starts_not_before. intros; lia.
    + constructor; [done|].
      rewrite insert_desc_perm. constructor; [|done].
      unfold starts_not_before. lia.
Qed.

Lemma sort_desc_sorted l : StronglySorted starts_not_before (sort_desc l).
Proof.
  induction l as [|x l IH]; simpl; [constructor|].
  by apply insert_desc_sorted.
Qed.

Lemma asc_chain_Forall from asc stop :
  asc_chain from asc stop → Forall (λ m, from <= e_start m) asc.
Proof.
  revert from. induction asc as [|x asc IH]; intros from; simpl; [done|].
  intros (? & ? & H). constructor; [done|].
  eapply Forall_impl; [exact (IH _ H)|]. simpl. intros; lia.
Qed.

Lemma asc_chain_sorted from asc stop :
  asc_chain from asc stop → StronglySorted starts_after (reverse asc).
Proof.
  revert from. induction asc as [|x asc IH]; intros from; simpl.
  - constructor.
  - intros (? & ? & H). rewrite reverse_cons.
    apply StronglySorted_app_2; [| by eapply IH | repeat constructor].
    intros a b Ha Hb. apply list_elem_of_singleton in Hb as ->.
    rewrite elem_of_reverse in Ha.
    apply asc_chain_Forall in H. rewrite Forall_forall in H.
    specialize (H a Ha). unfold starts_after. lia.
Qed.

(** A list sorted by descending start equals the strictly descending list
    of the same markers. *)
Lemma sorted_desc_unique l1 :
  ∀ l2, StronglySorted starts_not_before l1 → StronglySorted starts_after l2 →
        l1 ≡ₚ l2 → l1 = l2.
Proof.
  induction l1 as [|x l1 IH]; intros l2 H1 H2 Hp.
  - by apply Permutation_nil_l in Hp.
  - destruct l2 as [|y l2]; [by apply Permutation_nil_r in Hp|].
    apply StronglySorted_inv in H1 as [H1 Hx].
    apply StronglySorted_inv in H2 as [H2 Hy].
    destruct (decide (x = y)) as [->|Hne].
    + f_equal. apply IH; [done..|]. by eapply Permutation_cons_inv.
    + exfalso.
      assert (x ∈ l2) as Hx2.
      { assert (x ∈ y :: l2) as Hin by (rewrite <- Hp; left).
        apply elem_of_cons in Hin as [|]; [done|done]. }
      assert (y ∈ l1) as Hy1.
      { assert (y ∈ x :: l1) as Hin by (rewrite Hp; left).
        apply elem_of_cons in Hin as [|]; [by subst|done]. }
      rewrite Forall_forall in Hx, Hy.
      specialize (Hx _ Hy1). specialize (Hy _ Hx2).
      unfold starts_not_before, starts_after in *. lia.
Qed.

Lemma sort_desc_chain asc marks stop :
  asc ≡ₚ marks → asc_chain 0 asc stop → sort_desc marks = reverse asc.
Proof.
  intros Hp Hc. apply sorted_desc_unique.
  - apply sort_desc_sorted.
  - by eapply asc_chain_sorted.
  - by rewrite sort_desc_perm, reverse_Permutation.
Qed.

(** C5, as amended: [resolvePromptInput] walks the markers by descending
    start and splices the stored text of every text part whose stored text
    is not empty in place of its placeholder; a marker of any other part,
    or of a text part that stores the empty text, leaves the text as it is.
    For markers that are in bounds and do not overlap, the result is the
    original text read from left to right with those placeholders replaced,
    so no splice moves a marker that is still to be processed; the parts
    returned are the non-text parts. *)
Theorem resolvePromptInput_expands (c : Composition) (asc : list Extmark) :
  asc ≡ₚ c_extmarks c →
  asc_chain 0 asc (Z.of_nat (length (c_input c))) →
  resolvePromptInput c =
    (expand_asc c 0 asc (Z.of_nat (length (c_input c))),
     filter (λ part, is_text part = false) (c_parts c)).
Proof.
  intros Hp Hc. unfold resolvePromptInput. f_equal.
  rewrite (sort_desc_chain asc _ _ Hp Hc).
  pose proof (foldl_resolve_step c asc _ [] Hc ltac:(lia)) as H.
  rewrite Nat2Z.id, firstn_all, !app_nil_r in H. exact H.
Qed.

Lemma resolvePromptInput_expands_witness :
  resolvePromptInput comp_paste =
    (lit "see one
two
three and [Image 1] ok",
     [FilePart (lit "image/png") (lit "clipboard") (lit "data:")
        (Some {| src_start := 26; src_end := 35;
                 src_value := lit "[Image 1]" |})]).
Proof.
  rewrite (resolvePromptInput_expands comp_paste
             [ {| e_id := 1; e_start := 4; e_end := 21 |};
               {| e_id := 2; e_start := 26; e_end := 35 |} ]).
  - reflexivity.
  - apply Permutation_swap.
  - vm_compute. repeat split; discriminate.
Defined.

(** C5, as stated, fails: a text part that stores the empty text keeps its
    placeholder, where splicing the stored text of every text part would
    remove it. *)
Lemma resolvePromptInput_keeps_empty_expansion :
  asc_chain 0 (c_extmarks comp_empty_text)
    (Z.of_nat (length (c_input comp_empty_text))) ∧
  (resolvePromptInput comp_empty_text).1 = lit "[Pasted ~3 lines] x" ∧
  expand_every_text_part comp_empty_text 0 (c_extmarks comp_empty_text)
    (Z.of_nat (length (c_input comp_empty_text))) = lit " x" ∧
  (resolvePromptInput comp_empty_text).1 ≠
    expand_every_text_part comp_empty_text 0 (c_extmarks comp_empty_text)
      (Z.of_nat (length (c_input comp_empty_text))).
Proof.
  split; [|split; [|split]].
  - vm_compute. repeat split; discriminate.
  - reflexivity.
  - reflexivity.
  - intros H. vm_compute in H. discriminate H.
Qed.

Lemma foldl_resolve_step_no_text c l t :
  Forall (λ p, is_text p = false) (c_parts c) →
  foldl (resolve_step c) t l = t.
Proof.
  intros Hf. induction l as [|m l IH]; simpl; [done|].
  rewrite resolve_step_stored. unfold stored_text.
  destruct (c_extmarkToPartIndex c !! e_id m) as [i|]; [|done].
  destruct (c_parts c !! i) as [p|] eqn:Hp; [|done].
  rewrite Forall_forall in Hf.
  specialize (Hf p (list_elem_of_lookup_2 _ _ _ Hp)).
  destruct p as [[|]| |]; done.
Qed.

(** C6: a composition without text parts resolves to its input text
    unchanged and to its parts, which are its non-text parts, in their
    order. *)
Theorem resolvePromptInput_no_text_parts (c : Composition) :
  Forall (λ p, is_text p = false) (c_parts c) →
  resolvePromptInput c = (c_input c, c_parts c) ∧
  filter (λ part, is_text part = false) (c_parts c) = c_parts c.
Proof.
  intros Hf.
  assert (filter (λ part, is_text part = false) (c_parts c) = c_parts c) as E.
  { induction Hf as [|p ps Hp Hps IH]; [done|].
    rewrite filter_cons, decide_True by done. by rewrite IH. }
  split; [|done]. unfold resolvePromptInput.
  by rewrite foldl_resolve_step_no_text, E.
Qed.

Lemma resolvePromptInput_no_text_parts_witness :
  resolvePromptInput comp_no_text =
    (lit "ask @plan about [Image 1]", c_parts comp_no_text).
Proof.
  apply (resolvePromptInput_no_text_parts comp_no_text).
  repeat constructor.
Defined.

(** ** What the handlers and the effects leave alone *)

Ltac unfold_state :=
  unfold queuedPrompts, sendingQueuedPrompt, queuedEditID, queuedCursor,
    queueGate, inflight, outputs, enqueued, dispatched, prompt_input,
    prompt_parts, mode, interrupt in *.

Ltac unfold_handlers :=
  unfold handle, setProps, setEnv, setStatus, onContentChange,
    syncExtmarksWithPromptParts, queueAtEndOfLoop, submit, submit_resume,
    submit_send, editQueued, interruptSession, interruptTimeout,
    dispatchSettled, clearPrompt, promptModelWarning, sendPrompt in *.

Lemma restore_frame ps s :
  props (restoreExtmarksFromParts ps s) = props s ∧
  env (restoreExtmarksFromParts ps s) = env s ∧
  sig (restoreExtmarksFromParts ps s) = sig s ∧
  run (restoreExtmarksFromParts ps s) = run s.
Proof.
  unfold restoreExtmarksFromParts.
  generalize (imap (λ i p, (i, p)) ps). intros l.
  set (s0 := setStore_extmarkToPartIndex ∅ (extmarks_clear s)).
  assert (props s0 = props s ∧ env s0 = env s ∧ sig s0 = sig s
          ∧ run s0 = run s) as H by done.
  clearbody s0. revert s0 H.
  induction l as [|x l IH]; intros s0 H; simpl; [done|].
  apply IH. unfold restore_part.
  destruct (part_source x.2) as [[? ? [|]]|]; done.
Qed.

Lemma restore_sig ps s : sig (restoreExtmarksFromParts ps s) = sig s.
Proof. apply restore_frame. Qed.

Lemma restore_run ps s : run (restoreExtmarksFromParts ps s) = run s.
Proof. apply restore_frame. Qed.

Lemma restore_props ps s : props (restoreExtmarksFromParts ps s) = props s.
Proof. apply restore_frame. Qed.

Lemma restore_env ps s : env (restoreExtmarksFromParts ps s) = env s.
Proof. apply restore_frame. Qed.

Ltac frame :=
  unfold_handlers; unfold_state;
  repeat case_match; simpl;
  rewrite ?restore_sig, ?restore_run, ?restore_props, ?restore_env;
  simpl; try done.

(** No handler takes a prompt off the queue for dispatch. *)
Lemma handle_dispatched e s : dispatched (handle e s) = dispatched s.
Proof. destruct e; frame. Qed.

(** Only the settlement of a dispatch touches the pending dispatches and
    the flag. *)
Lemma handle_inflight e s :
  (∀ i ok, e ≠ EvDispatchSettled i ok) →
  inflight (handle e s) = inflight s ∧
  sendingQueuedPrompt (handle e s) = sendingQueuedPrompt s.
Proof. intros He. destruct e; try (by frame). exfalso. by eapply He. Qed.

(** What a handler does to the queue: nothing, an edit in place, or one
    prompt appended, which is then logged as enqueued. *)
Lemma handle_queue e s :
  (queuedPrompts (handle e s) = queuedPrompts s
   ∧ enqueued (handle e s) = enqueued s)
  ∨ (∃ id inputText ps,
       queuedPrompts (handle e s)
         = editInPlace id inputText ps (queuedPrompts s)
       ∧ enqueued (handle e s) = enqueued s)
  ∨ (∃ item,
       e = EvQueueAtEndOfLoop (q_id item)
       ∧ queuedPrompts (handle e s) = queuedPrompts s ++ [item]
       ∧ enqueued (handle e s) = enqueued s ++ [item]).
Proof.
  destruct e; try (left; by frame).
  - (* submit *)
    unfold handle, submit.
    repeat case_match; try (left; by frame).
    right; left. eexists _, _, _. by frame.
  - (* queue at end of loop *)
    unfold handle, queueAtEndOfLoop, submit.
    repeat case_match; try (left; by frame);
      try (right; left; eexists _, _, _; by frame).
    right; right. eexists. split; [|by frame]. done.
Qed.

(** The effects that clear the editing state and move the gate leave the
    queue, the flag and the history alone. *)
Lemma cleanupEffect_frame s :
  queuedPrompts (cleanupEffect s) = queuedPrompts s ∧
  sendingQueuedPrompt (cleanupEffect s) = sendingQueuedPrompt s ∧
  queueGate (cleanupEffect s) = queueGate s ∧
  run (cleanupEffect s) = run s ∧
  props (cleanupEffect s) = props s ∧ env (cleanupEffect s) = env s ∧
  store (cleanupEffect s) = store s ∧ input (cleanupEffect s) = input s.
Proof. unfold cleanupEffect. unfold_state. repeat case_match; done. Qed.

Lemma gateEffect_frame s :
  queuedPrompts (gateEffect s) = queuedPrompts s ∧
  sendingQueuedPrompt (gateEffect s) = sendingQueuedPrompt s ∧
  queuedEditID (gateEffect s) = queuedEditID s ∧
  queuedCursor (gateEffect s) = queuedCursor s ∧
  run (gateEffect s) = run s ∧
  props (gateEffect s) = props s ∧ env (gateEffect s) = env s ∧
  store (gateEffect s) = store s ∧ input (gateEffect s) = input s.
Proof. unfold gateEffect. unfold_state. repeat case_match; done. Qed.

(** The dispatch effect does nothing, or it finds the flag clear, the gate
    open, nothing being edited and the session idle, and sends the head of
    the queue of the session. *)
Lemma dispatchEffect_cases s :
  dispatchEffect s = s
  ∨ (∃ next,
       queuedPromptsForSession s !! 0%nat = Some next
       ∧ queueGate s = open
       ∧ sendingQueuedPrompt s = false
       ∧ truthy (queuedEditID s) = false
       ∧ status s = idle
       ∧ queuedPrompts (dispatchEffect s)
           = removeQueued (q_id next) (queuedPrompts s)
       ∧ sendingQueuedPrompt (dispatchEffect s) = true
       ∧ inflight (dispatchEffect s) = inflight s ++ [next]
       ∧ dispatched (dispatchEffect s) = dispatched s ++ [next]
       ∧ enqueued (dispatchEffect s) = enqueued s
       ∧ outputs (dispatchEffect s)
           = outputs s ++ [SessionPrompt (q_sessionID next) (q_model next)
                             (q_variant next) (q_agent next)
                             (q_inputText next) (q_parts next)]
       ∧ queueGate (dispatchEffect s) = open
       ∧ queuedEditID (dispatchEffect s) = queuedEditID s
       ∧ queuedCursor (dispatchEffect s) = queuedCursor s
       ∧ props (dispatchEffect s) = props s ∧ env (dispatchEffect s) = env s
       ∧ store (dispatchEffect s) = store s
       ∧ input (dispatchEffect s) = input s).
Proof.
  unfold dispatchEffect.
  destruct (decide (queueGate s ≠ open)) as [|Hg]; [by left|].
  destruct (sendingQueuedPrompt s) eqn:Hs; [by left|].
  destruct (truthy (queuedEditID s)) eqn:He; [by left|].
  destruct (decide (status s ≠ idle)) as [|Hi]; [by left|].
  destruct (queuedPromptsForSession s !! 0%nat) as [next|] eqn:Hn; [|by left].
  right. exists next.
  apply dec_stable in Hg. apply dec_stable in Hi.
  unfold_state. unfold sendPrompt. simpl. rewrite ?Hg. done.
Qed.

Lemma effects_frame s :
  props (effects s) = props s ∧ env (effects s) = env s ∧
  store (effects s) = store s ∧ input (effects s) = input s ∧
  enqueued (effects s) = enqueued s.
Proof.
  unfold effects.
  pose proof (cleanupEffect_frame s) as (_ & _ & _ & Hr & Hp & He & Hs & Hi).
  pose proof (gateEffect_frame (cleanupEffect s))
    as (_ & _ & _ & _ & Hr' & Hp' & He' & Hs' & Hi').
  destruct (dispatchEffect_cases (gateEffect (cleanupEffect s)))
    as [->|(next & H)].
  - unfold enqueued. rewrite Hr', Hr, Hp', Hp, He', He, Hs', Hs, Hi', Hi. done.
  - destruct H as (_ & _ & _ & _ & _ & _ & _ & _ & _ & Hq & _ & _ & _ & _
                   & Hp2 & He2 & Hs2 & Hi2).
    rewrite Hq, Hp2, He2, Hs2, Hi2. unfold enqueued.
    rewrite Hr', Hr, Hp', Hp, He', He, Hs', Hs, Hi', Hi. done.
Qed.

(** ** Single flight *)

Lemma effects_single_flight s : single_flight s → single_flight (effects s).
Proof.
  unfold single_flight, effects. intros H.
  pose proof (cleanupEffect_frame s) as (_ & Hs & _ & Hr & _).
  pose proof (gateEffect_frame (cleanupEffect s)) as (_ & Hs' & _ & _ & Hr' & _).
  assert (length (inflight (gateEffect (cleanupEffect s)))
          = if sendingQueuedPrompt (gateEffect (cleanupEffect s))
            then 1%nat else 0%nat) as H'.
  { unfold inflight. by rewrite Hs', Hs, Hr', Hr. }
  destruct (dispatchEffect_cases (gateEffect (cleanupEffect s)))
    as [->|(next & _ & _ & Hf & _ & _ & _ & Ht & Hi & _)]; [done|].
  rewrite Ht, Hi, length_app. rewrite Hf in H'. rewrite H'. done.
Qed.

Lemma handle_single_flight e s : single_flight s → single_flight (handle e s).
Proof.
  unfold single_flight. intros H.
  destruct e as [p|e|sid st|value marks|st ta| |i created|id|direction| | |i ok];
    try (match goal with
         | |- context [handle ?ev s] =>
             destruct (handle_inflight ev s) as [-> ->];
             [by intros ? ? [=] | exact H]
         end).
  simpl. unfold dispatchSettled.
  destruct (inflight s !! i) as [q|] eqn:Hi; [|done].
  destruct (sendingQueuedPrompt s).
  - destruct (inflight s) as [|q0 [|]]; try done.
    destruct i; [|done]. by destruct ok.
  - by destruct (inflight s).
Qed.

Lemma reachable_single_flight s : reachable s → single_flight s.
Proof.
  induction 1 as [|s e _ IH _]; [done|].
  by apply effects_single_flight, handle_single_flight.
Qed.

(** C2: in every reachable state at most one dispatch is in flight and the
    flag is set exactly then; while one is in flight, no event other than
    its settlement issues another one, whatever changes. *)
Theorem single_flight_dispatch (s : State) :
  reachable s →
  (length (inflight s) ≤ 1)%nat ∧
  (sendingQueuedPrompt s = true ↔ inflight s ≠ []) ∧
  (∀ e, inflight s ≠ [] → (∀ i ok, e ≠ EvDispatchSettled i ok) →
        inflight (step s e) = inflight s ∧
        dispatched (step s e) = dispatched s ∧
        sendingQueuedPrompt (step s e) = true).
Proof.
  intros Hr. pose proof (reachable_single_flight s Hr) as H.
  unfold single_flight in H. split; [|split].
  - destruct (sendingQueuedPrompt s); lia.
  - destruct (sendingQueuedPrompt s), (inflight s); naive_solver.
  - intros e Hne He.
    assert (sendingQueuedPrompt s = true) as Hs.
    { destruct (sendingQueuedPrompt s), (inflight s); naive_solver. }
    destruct (handle_inflight e s He) as [Hi Hf]. rewrite Hs in Hf.
    unfold step, effects.
    pose proof (cleanupEffect_frame (handle e s)) as (_ & Hs1 & _ & Hr1 & _).
    pose proof (gateEffect_frame (cleanupEffect (handle e s)))
      as (_ & Hs2 & _ & _ & Hr2 & _).
    destruct (dispatchEffect_cases (gateEffect (cleanupEffect (handle e s))))
      as [->|(next & _ & _ & Hc & _)].
    + pose proof (handle_dispatched e s) as Hd.
      unfold inflight, dispatched in *. rewrite Hs2, Hs1, Hr2, Hr1.
      by rewrite Hi, Hf, Hd.
    + rewrite Hs2, Hs1, Hf in Hc. done.
Qed.

(** ** First in, first out *)

Lemma editInPlace_ids id t ps l : q_id <$> editInPlace id t ps l = q_id <$> l.
Proof.
  unfold editInPlace. induction l as [|x l IH]; [done|].
  rewrite !fmap_cons, IH. by destruct (decide (q_id x = id)).
Qed.

Lemma editInPlace_forSession id t ps sid l :
  slot <$> forSession sid (editInPlace id t ps l) = slot <$> forSession sid l.
Proof.
  unfold forSession, editInPlace.
  induction l as [|x l IH]; [done|]. rewrite fmap_cons, !filter_cons.
  destruct (decide (q_id x = id)); simpl;
    destruct (decide (q_sessionID x = sid)); rewrite ?fmap_cons, ?IH; done.
Qed.

Lemma forSession_app sid l1 l2 :
  forSession sid (l1 ++ l2) = forSession sid l1 ++ forSession sid l2.
Proof. apply filter_app. Qed.

Lemma forSession_singleton sid x :
  forSession sid [x] = if decide (q_sessionID x = sid) then [x] else [].
Proof. unfold forSession. rewrite filter_cons. by case_decide. Qed.

Lemma removeQueued_cons id x l :
  removeQueued id (x :: l)
  = if decide (q_id x = id) then l else x :: removeQueued id l.
Proof.
  unfold removeQueued, findIndex_id. simpl.
  case_decide; simpl; [done|].
  by destruct (list_find _ l) as [[i y]|].
Qed.

(** Cutting out the head of the queue of a session takes exactly that item
    off the queue. *)
Lemma removeQueued_head sid l next rest :
  NoDup (q_id <$> l) → forSession sid l = next :: rest →
  forSession sid (removeQueued (q_id next) l) = rest
  ∧ (∀ sid', sid' ≠ sid →
       forSession sid' (removeQueued (q_id next) l) = forSession sid' l)
  ∧ next :: removeQueued (q_id next) l ≡ₚ l
  ∧ q_sessionID next = sid.
Proof.
  unfold forSession. induction l as [|x l IH]; intros Hnd Hf; [done|].
  rewrite fmap_cons in Hnd. apply NoDup_cons in Hnd as [Hx Hnd].
  rewrite filter_cons in Hf. rewrite removeQueued_cons.
  destruct (decide (q_sessionID x = sid)) as [Hs|Hs].
  - injection Hf as -> Hr. rewrite decide_True by done.
    split; [done|]. split; [|done].
    intros sid' Hne. rewrite filter_cons, decide_False; [done | congruence].
  - assert (next ∈ l) as Hin.
    { assert (next ∈ filter (λ item, q_sessionID item = sid) l) as Hin
        by (rewrite Hf; left).
      by apply list_elem_of_filter in Hin as [_ ?]. }
    rewrite decide_False.
    2: { intros E. apply Hx. rewrite E. by apply list_elem_of_fmap_2. }
    destruct (IH Hnd Hf) as (H1 & H2 & H3 & H4).
    split; [|split; [|split]]; [| |by rewrite Permutation_swap, H3|done].
    + by rewrite filter_cons, decide_False.
    + intros sid' Hne. rewrite !filter_cons. rewrite (H2 sid' Hne). done.
Qed.

Lemma queuedPromptsForSession_head s next :
  queuedPromptsForSession s !! 0%nat = Some next →
  ∃ sid rest, sessionID (props s) = Some sid ∧ sid ≠ []
              ∧ forSession sid (queuedPrompts s) = next :: rest.
Proof.
  unfold queuedPromptsForSession.
  destruct (sessionID (props s)) as [[|c sid]|]; [done| |done].
  destruct (forSession (c :: sid) (queuedPrompts s)) as [|x rest] eqn:E;
    [done|].
  intros [= ->]. by exists (c :: sid), rest.
Qed.

Lemma cleanup_gate_frame s :
  queuedPrompts (gateEffect (cleanupEffect s)) = queuedPrompts s ∧
  sendingQueuedPrompt (gateEffect (cleanupEffect s)) = sendingQueuedPrompt s ∧
  run (gateEffect (cleanupEffect s)) = run s ∧
  props (gateEffect (cleanupEffect s)) = props s ∧
  env (gateEffect (cleanupEffect s)) = env s.
Proof.
  pose proof (cleanupEffect_frame s) as (Hq & Hs & _ & Hr & Hp & He & _).
  pose proof (gateEffect_frame (cleanupEffect s))
    as (Hq' & Hs' & _ & _ & Hr' & Hp' & He' & _).
  by rewrite Hq', Hs', Hr', Hp', He', Hq, Hs, Hr, Hp, He.
Qed.

Lemma effects_queue_inv s : queue_inv s → queue_inv (effects s).
Proof.
  intros (Hsub & Hnd & Hfifo & Hin). unfold effects.
  pose proof (cleanup_gate_frame s) as (Hq & _ & Hr & Hp & _).
  set (s1 := gateEffect (cleanupEffect s)) in *.
  assert (queue_inv s1) as Hinv1.
  { unfold queue_inv, fifo, dispatched, enqueued, inflight.
    rewrite Hq, Hr. done. }
  destruct (dispatchEffect_cases s1)
    as [->|(next & Hn & _ & _ & _ & _ & Hq2 & _ & Hi2 & Hd2 & He2 & _)];
    [done|].
  apply queuedPromptsForSession_head in Hn as (sid & rest & _ & _ & Hf).
  assert (dispatched s1 = dispatched s) as Hd1 by (unfold dispatched; by rewrite Hr).
  assert (enqueued s1 = enqueued s) as He1 by (unfold enqueued; by rewrite Hr).
  assert (inflight s1 = inflight s) as Hi1 by (unfold inflight; by rewrite Hr).
  rewrite Hq in Hq2, Hf. rewrite Hd1 in Hd2. rewrite He1 in He2.
  rewrite Hi1 in Hi2.
  assert (NoDup (q_id <$> queuedPrompts s)) as Hndq.
  { rewrite fmap_app in Hnd. by apply NoDup_app in Hnd as (_ & _ & ?). }
  destruct (removeQueued_head sid _ next rest Hndq Hf) as (H1 & H2 & H3 & H4).
  assert (dispatched s ++ [next] ++ removeQueued (q_id next) (queuedPrompts s)
          ≡ₚ dispatched s ++ queuedPrompts s) as Hperm.
  { simpl. by rewrite H3. }
  unfold queue_inv, fifo. rewrite Hq2, Hd2, He2, Hi2.
  rewrite <- !(assoc_L (++)). split; [|split; [|split]].
  - by rewrite Hperm.
  - by rewrite Hperm.
  - intros sid'. rewrite forSession_app.
    specialize (Hfifo sid'). rewrite <- Hfifo.
    destruct (decide (sid' = sid)) as [->|Hne].
    + rewrite H1, Hf, forSession_singleton, decide_True by done.
      by rewrite <- !(assoc_L (++)).
    + rewrite (H2 sid' Hne), forSession_singleton, decide_False by congruence.
      by rewrite app_nil_r.
  - intros x Hx. apply elem_of_app in Hx as [Hx|Hx].
    + apply elem_of_app. left. by apply Hin.
    + apply elem_of_app. by right.
Qed.

Lemma handle_inflight_sub e s : inflight (handle e s) ⊆ inflight s.
Proof.
  destruct e as [p|e|sid st|value marks|st ta| |i created|id|direction| | |i ok];
    try (match goal with
         | |- context [handle ?ev s] =>
             destruct (handle_inflight ev s) as [-> _];
             [by intros ? ? [=] | done]
         end).
  simpl. unfold dispatchSettled.
  destruct (inflight s !! i) as [q|] eqn:Hi; [|done].
  assert (inflight (setSendingQueuedPrompt false
            (if ok then set_inflight (delete i (inflight s)) s
             else emit (ToastShow error (lit "Failed to send queued prompt") 3000)
                    (set_inflight (delete i (inflight s)) s)))
          = delete i (inflight s)) as -> by (by destruct ok).
  apply sublist_subseteq, sublist_delete.
Qed.

Lemma handle_queue_inv e s : fresh_id s e → queue_inv s → queue_inv (handle e s).
Proof.
  intros Hfresh (Hsub & Hnd & Hfifo & Hin).
  pose proof (handle_dispatched e s) as Hd.
  pose proof (handle_inflight_sub e s) as Hi.
  unfold queue_inv, fifo. rewrite Hd.
  destruct (handle_queue e s)
    as [[-> ->]|[(id & t & ps & -> & ->)|(item & -> & -> & ->)]].
  - repeat split; try done. by etrans.
  - rewrite !fmap_app, editInPlace_ids, <- !fmap_app.
    repeat split; try done; [|by etrans].
    intros sid. rewrite fmap_app, editInPlace_forSession, <- fmap_app.
    apply Hfifo.
  - simpl in Hfresh. split; [|split; [|split]].
    + rewrite (assoc_L (++)), !(fmap_app _ _ [item]).
      intros x Hx. apply elem_of_app in Hx as [Hx|Hx].
      * apply elem_of_app. left. by apply Hsub.
      * apply elem_of_app. by right.
    + rewrite (assoc_L (++)), (fmap_app _ _ [item]).
      apply NoDup_app. split; [done|]. split; [|apply NoDup_singleton].
      intros x Hx Hx'. apply list_elem_of_singleton in Hx' as ->.
      apply Hfresh. by apply Hsub.
    + intros sid. rewrite !forSession_app.
      rewrite (assoc_L (++)), fmap_app, (Hfifo sid), <- fmap_app. done.
    + by etrans.
Qed.

Lemma reachable_queue_inv s : reachable s → queue_inv s.
Proof.
  induction 1 as [|s e _ IH Hf].
  - unfold queue_inv, fifo. simpl. repeat split; try done. constructor.
  - by apply effects_queue_inv, handle_queue_inv.
Qed.

Lemma reachable_run es : ∀ s, reachable s → fresh_run s es →
  reachable (run_events s es).
Proof.
  induction es as [|e es IH]; intros s Hr Hf; [done|].
  destruct Hf as [He Hf]. apply IH; [|done]. by constructor.
Qed.

Lemma run_events_app s es1 es2 :
  run_events s (es1 ++ es2) = run_events (run_events s es1) es2.
Proof. apply foldl_app. Qed.

Lemma edit_drain_reachable : reachable edit_drain.
Proof.
  apply reachable_run; [constructor|].
  refine (bool_decide_unpack _ _). vm_compute. exact I.
Qed.

Lemma first_inflight_reachable : reachable first_inflight.
Proof.
  unfold first_inflight, queue3. rewrite <- run_events_app.
  apply reachable_run; [constructor|].
  refine (bool_decide_unpack _ _). vm_compute. exact I.
Qed.

Lemma single_flight_dispatch_witness :
  reachable first_inflight
  ∧ q_inputText <$> inflight first_inflight = [lit "message 1"]
  ∧ sendingQueuedPrompt first_inflight = true
  ∧ inflight (step first_inflight (EvStatus ses_1 idle))
    = inflight first_inflight.
Proof.
  split; [exact first_inflight_reachable|].
  split; [vm_compute; reflexivity|].
  split; [vm_compute; reflexivity|].
  destruct (single_flight_dispatch first_inflight first_inflight_reachable)
    as (_ & _ & H).
  apply (H (EvStatus ses_1 idle)).
  - vm_compute. discriminate.
  - intros i ok. discriminate.
Defined.

(** C1: per session, the prompts dispatched so far followed by the prompts
    still queued are the prompts enqueued, in the order of their insertion,
    whatever was edited in place in between; and queueing the messages 1, 2
    and 3, editing the second one to [message 2xyz] and letting the queue
    drain dispatches [message 1], [message 2xyz], [message 3]. *)
Theorem dispatch_order_is_insertion_order :
  (∀ s, reachable s →
     ∀ sid,
       slot <$> (forSession sid (dispatched s)
                 ++ forSession sid (queuedPrompts s))
       = slot <$> forSession sid (enqueued s))
  ∧ q_inputText <$> enqueued edit_drain
    = [lit "message 1"; lit "message 2"; lit "message 3"]
  ∧ q_inputText <$> dispatched edit_drain
    = [lit "message 1"; lit "message 2xyz"; lit "message 3"]
  ∧ queuedPrompts edit_drain = [].
Proof.
  split; [|by vm_compute].
  intros s Hr. by destruct (reachable_queue_inv s Hr) as (_ & _ & Hf & _).
Qed.

Lemma dispatch_order_is_insertion_order_witness :
  reachable edit_drain ∧
  slot <$> (forSession ses_1 (dispatched edit_drain)
            ++ forSession ses_1 (queuedPrompts edit_drain))
  = slot <$> forSession ses_1 (enqueued edit_drain).
Proof.
  split; [exact edit_drain_reachable|].
  exact (proj1 dispatch_order_is_insertion_order edit_drain
           edit_drain_reachable ses_1).
Defined.

(** ** The gate follows the status *)

Lemma status_frame s s' : props s' = props s → env s' = env s →
  status s' = status s.
Proof. unfold status. by intros -> ->. Qed.

Lemma queuedPromptsForSession_frame s s' :
  props s' = props s → queuedPrompts s' = queuedPrompts s →
  queuedPromptsForSession s' = queuedPromptsForSession s.
Proof. unfold queuedPromptsForSession. by intros -> ->. Qed.

Lemma dispatchEffect_gate s :
  queueGate (dispatchEffect s) = queueGate s
  ∧ status (dispatchEffect s) = status s.
Proof.
  destruct (dispatchEffect_cases s) as [->|(next & H)]; [done|].
  destruct H as (_ & Hg & _ & _ & _ & _ & _ & _ & _ & _ & _ & Hg' & _ & _
                 & Hp & He & _).
  split; [congruence|]. by apply status_frame.
Qed.

Lemma gateEffect_settles s : gate_settled (gateEffect s).
Proof.
  unfold gate_settled, gateEffect.
  assert (∀ g, status (setQueueGate g s) = status s) as Hst by done.
  destruct (queueGate s) eqn:Hg; try (rewrite Hg; done).
  - destruct (decide (status s = idle)); [rewrite Hg; done|].
    rewrite Hst. done.
  - destruct (decide (status s ≠ idle)); [rewrite Hg; done|].
    rewrite Hst. done.
Qed.

Lemma gateEffect_settled s : gate_settled s → gateEffect s = s.
Proof.
  intros [H1 H2]. unfold gateEffect.
  destruct (queueGate s) eqn:Hg; try done.
  - by rewrite decide_True by auto.
  - by rewrite decide_True by auto.
Qed.

Lemma effects_gate_settled s : gate_settled (effects s).
Proof.
  unfold effects.
  pose proof (gateEffect_settles (cleanupEffect s)) as H.
  destruct (dispatchEffect_gate (gateEffect (cleanupEffect s))) as [Hg Hs].
  unfold gate_settled in *. by rewrite Hg, Hs.
Qed.

Lemma reachable_gate_settled s : reachable s → gate_settled s.
Proof.
  destruct 1 as [|s e _ _]; [done|]. apply effects_gate_settled.
Qed.

(** ** A rejected dispatch *)

Lemma removeQueued_sublist id l : removeQueued id l `sublist_of` l.
Proof.
  unfold removeQueued. destruct (findIndex_id id l) as [i|]; [|done].
  rewrite <- delete_take_drop. apply sublist_delete.
Qed.

(** C4: when the send of a dispatched prompt rejects, the handler shows one
    error toast and clears the flag; it leaves the queue and the gate as they
    are, so the prompt that was taken off the queue is not in it again.  The
    effects that run next leave the gate alone as well; they either dispatch
    nothing, or take the head of the queue as it is now. *)
Theorem rejected_dispatch_is_dropped (s : State) (i : nat) (q : QueuedPrompt) :
  reachable s → inflight s !! i = Some q →
  let s' := dispatchSettled i false s in
  let s'' := step s (EvDispatchSettled i false) in
  outputs s' = outputs s
               ++ [ToastShow error (lit "Failed to send queued prompt") 3000]
  ∧ queuedPrompts s' = queuedPrompts s
  ∧ queueGate s' = queueGate s
  ∧ sendingQueuedPrompt s' = false
  ∧ (q_id q ∉ (q_id <$> queuedPrompts s'))
  ∧ queueGate s'' = queueGate s
  ∧ (q_id q ∉ (q_id <$> queuedPrompts s''))
  ∧ ((queuedPrompts s'' = queuedPrompts s ∧ dispatched s'' = dispatched s)
     ∨ (∃ next, queuedPromptsForSession s !! 0%nat = Some next
                ∧ queuedPrompts s''
                  = removeQueued (q_id next) (queuedPrompts s)
                ∧ dispatched s'' = dispatched s ++ [next])).
Proof.
  intros Hr Hi s' s''.
  destruct (reachable_queue_inv s Hr) as (_ & Hnd & _ & Hin).
  pose proof (reachable_gate_settled s Hr) as Hgs.
  assert (q_id q ∉ (q_id <$> queuedPrompts s)) as Hq.
  { rewrite fmap_app in Hnd. apply NoDup_app in Hnd as (_ & Hd & _).
    apply Hd, list_elem_of_fmap_2, Hin. by eapply list_elem_of_lookup_2. }
  assert (outputs s' = outputs s
            ++ [ToastShow error (lit "Failed to send queued prompt") 3000]
          ∧ queuedPrompts s' = queuedPrompts s ∧ queueGate s' = queueGate s
          ∧ sendingQueuedPrompt s' = false ∧ props s' = props s
          ∧ env s' = env s ∧ dispatched s' = dispatched s)
    as (Ho & Hqs & Hg & Hf & Hp & He & Hd).
  { subst s'. unfold dispatchSettled. by rewrite Hi. }
  assert (gate_settled s') as Hgs'.
  { unfold gate_settled. by rewrite Hg, (status_frame s s'). }
  assert (s'' = dispatchEffect (gateEffect (cleanupEffect s'))) as -> by done.
  pose proof (cleanupEffect_frame s') as (Hq1 & _ & Hg1 & Hr1 & Hp1 & He1 & _).
  assert (gate_settled (cleanupEffect s')) as Hgs1.
  { unfold gate_settled. by rewrite Hg1, (status_frame s' _). }
  rewrite (gateEffect_settled _ Hgs1).
  destruct (dispatchEffect_gate (cleanupEffect s')) as [Hg2 _].
  repeat split; try done.
  - by rewrite Hqs.
  - by rewrite Hg2, Hg1.
  - intros Hx. apply Hq.
    eapply (sublist_subseteq _ (q_id <$> queuedPrompts s)); [|exact Hx].
    destruct (dispatchEffect_cases (cleanupEffect s'))
      as [->|(next & _ & _ & _ & _ & _ & -> & _)].
    + by rewrite Hq1, Hqs.
    + rewrite Hq1, Hqs. apply fmap_sublist, removeQueued_sublist.
  - destruct (dispatchEffect_cases (cleanupEffect s'))
      as [->|(next & Hn & _ & _ & _ & _ & Hq3 & _ & _ & Hd3 & _)].
    + left. unfold dispatched in *. by rewrite Hq1, Hqs, Hr1.
    + right. exists next.
      rewrite (queuedPromptsForSession_frame s (cleanupEffect s')) in Hn
        by congruence.
      unfold dispatched in *. rewrite Hq3, Hd3, Hq1, Hqs, Hr1, Hd. done.
Qed.

Lemma rejected_dispatch_is_dropped_witness :
  inflight first_inflight !! 0%nat
    = Some {| q_id := lit "prt_1"; q_sessionID := ses_1;
              q_inputText := lit "message 1"; q_parts := [];
              q_agent := lit "build";
              q_model := {| providerID := lit "openai";
                            modelID := lit "gpt-5" |};
              q_variant := None |}
  ∧ q_id <$> queuedPrompts (dispatchSettled 0 false first_inflight)
    = [lit "prt_2"; lit "prt_3"]
  ∧ queueGate (dispatchSettled 0 false first_inflight) = open.
Proof.
  assert (inflight first_inflight !! 0%nat
          = Some {| q_id := lit "prt_1"; q_sessionID := ses_1;
                    q_inputText := lit "message 1"; q_parts := [];
                    q_agent := lit "build";
                    q_model := {| providerID := lit "openai";
                                  modelID := lit "gpt-5" |};
                    q_variant := None |}) as Hi by (vm_compute; reflexivity).
  split; [exact Hi|].
  destruct (rejected_dispatch_is_dropped first_inflight 0 _
              first_inflight_reachable Hi) as (_ & Hq & Hg & _).
  rewrite Hq, Hg. split; vm_compute; reflexivity.
Defined.

(** ** The gate *)

Lemma effects_gate s : queueGate (effects s) = queueGate (gateEffect s).
Proof.
  unfold effects.
  destruct (dispatchEffect_gate (gateEffect (cleanupEffect s))) as [-> _].
  pose proof (cleanupEffect_frame s) as (_ & _ & Hg & _ & Hp & He & _).
  pose proof (status_frame s (cleanupEffect s) Hp He) as Hs.
  unfold gateEffect. rewrite Hg, Hs.
  destruct (queueGate s) eqn:E; rewrite ?Hg, ?E; try done;
    case_decide; rewrite ?Hg, ?E; done.
Qed.

Lemma effects_dispatched s :
  queueGate (effects s) ≠ open →
  dispatched (effects s) = dispatched s ∧ inflight (effects s) = inflight s.
Proof.
  unfold effects. intros Hg.
  pose proof (cleanup_gate_frame s) as (_ & _ & Hr & _).
  destruct (dispatchEffect_cases (gateEffect (cleanupEffect s)))
    as [E|(next & H)].
  - rewrite E. unfold dispatched, inflight. by rewrite Hr.
  - destruct H as (_ & _ & _ & _ & _ & _ & _ & _ & _ & _ & _ & Ho & _).
    done.
Qed.

(** What a handler does to the gate. *)
Lemma handle_gate e s :
  queueGate (handle e s) = queueGate s
  ∨ ((∃ p, e = EvProps p) ∧ queueGate (handle e s) = open)
  ∨ (e = EvInterrupt ∧ queueGate (handle e s) = paused)
  ∨ (queueGate s = paused
     ∧ (e = EvSubmit ∨ (∃ id, e = EvQueueAtEndOfLoop id)
        ∨ (∃ i created, e = EvSessionCreated i created))
     ∧ queueGate (handle e s) = wait_busy).
Proof.
  destruct e as [p|e|sid st|value marks|st ta| |i created|id|direction| | |i ok];
    try (left; by frame).
  - unfold handle, setProps. case_bool_decide; [|by left].
    right; left. split; [by eexists|done].
  - unfold handle, submit, submit_send.
    repeat case_match; try (left; by frame);
      (right; right; right; split; [done|]; split; [by left|]; by frame).
  - unfold handle, submit_resume, submit_send.
    repeat case_match; try (left; by frame);
      (right; right; right; split; [done|];
       split; [right; right; by eexists _, _|]; by frame).
  - unfold handle, queueAtEndOfLoop, submit, submit_send.
    repeat case_match; try (left; by frame);
      (right; right; right; split; [done|];
       split; [right; left; by eexists|]; by frame).
  - unfold handle, interruptSession.
    repeat case_match; try (left; by frame).
    right; right; left. split; [done|]. by frame.
Qed.

Lemma step_gate s e : queueGate (step s e) = queueGate (gateEffect (handle e s)).
Proof. apply effects_gate. Qed.

Lemma gateEffect_gate s :
  queueGate (gateEffect s) =
    match queueGate s with
    | wait_busy => if decide (status s = idle) then wait_busy else wait_idle
    | wait_idle => if decide (status s = idle) then open else wait_idle
    | g => g
    end.
Proof.
  unfold gateEffect.
  destruct (queueGate s) eqn:E; rewrite ?E; try done;
    repeat case_decide; rewrite ?E; done.
Qed.

Lemma setStatus_status s st :
  status (setStatus (default [] (sessionID (props s))) st s) = st.
Proof. unfold status, setStatus. simpl. by rewrite lookup_insert_eq. Qed.

Lemma submit_direct s :
  submits_directly s →
  ∃ sid inputText ps m, submit s = submit_send sid inputText ps m s.
Proof.
  intros (Hd & Ha & Hi & He & Hq & Hc & Hu & Hw & Hs & Hed & Hm & Ht).
  unfold submit. rewrite Hd, Ha, Hu, Hw, Hs, Hed. simpl.
  rewrite decide_False by done.
  rewrite bool_decide_eq_false_2 by tauto.
  destruct (model_current (env s)) as [m|]; [|by destruct Hm].
  destruct (sessionID (props s)) as [[|c sid]|]; try done.
  by eexists _, _, _, _.
Qed.

Lemma submit_send_gate sid inputText ps m s :
  queueGate s = paused →
  queueGate (submit_send sid inputText ps m s) = wait_busy
  ∧ status (submit_send sid inputText ps m s) = status s.
Proof.
  intros Hg. unfold submit_send.
  destruct (decide (queueGate s = paused)); [|done].
  split; [by frame|]. apply status_frame; by frame.
Qed.

(** C3: the gate goes from open to paused when an interrupt reaches the
    count of two, from paused to [wait_busy] on a direct submit (and on to
    [wait_idle] in the same step when the session is not idle then), from
    [wait_busy] to [wait_idle] when the status of the session is seen not to
    be idle, and from [wait_idle] to open when it is seen idle again; in one
    step the gate makes no other move than these, a pause, or the opening on
    a change of props; and nothing is dispatched by the effect, or in a step,
    that finds or leaves the gate not open. *)
Theorem gate_lifecycle (s : State) :
  (interrupt_armed s → 2 <= interrupt s + 1 →
     queueGate (step s EvInterrupt) = paused)
  ∧ (queueGate s = paused → submits_directly s →
       queueGate (submit s) = wait_busy
       ∧ (status s = idle → queueGate (step s EvSubmit) = wait_busy)
       ∧ (status s ≠ idle → queueGate (step s EvSubmit) = wait_idle))
  ∧ (queueGate s = wait_busy → ∀ st, st ≠ idle →
       queueGate (step s (EvStatus (default [] (sessionID (props s))) st))
       = wait_idle)
  ∧ (queueGate s = wait_idle →
       queueGate (step s (EvStatus (default [] (sessionID (props s))) idle))
       = open)
  ∧ (∀ e, gate_move (queueGate s) e (queueGate (step s e)))
  ∧ (queueGate s ≠ open → dispatchEffect s = s)
  ∧ (∀ e, queueGate (step s e) ≠ open →
          dispatched (step s e) = dispatched s
          ∧ inflight (step s e) ⊆ inflight s).
Proof.
  split_and!.
  - intros (Ha & Hf & Hm & Hs) Hi.
    rewrite step_gate, gateEffect_gate. simpl.
    unfold interruptSession. rewrite Ha, Hf. simpl.
    rewrite decide_False by (rewrite Hm; done).
    destruct (sessionID (props s)) as [[|c sid]|]; try done.
    assert ((interrupt (setStore_interrupt (interrupt s + 1) s) >=? 2) = true)
      as -> by (apply Z.geb_le; unfold interrupt in *; simpl; lia).
    done.
  - intros Hg Hd.
    destruct (submit_direct s Hd) as (sid & t & ps & m & E).
    rewrite !step_gate, !gateEffect_gate. simpl. rewrite E.
    destruct (submit_send_gate sid t ps m s Hg) as [-> ->].
    split; [done|]. split; intros Hi; [by rewrite decide_True|].
    by rewrite decide_False.
  - intros Hg st Hst. rewrite step_gate, gateEffect_gate. simpl.
    rewrite setStatus_status. change (queueGate (setStatus _ st s))
      with (queueGate s). rewrite Hg. by rewrite decide_False.
  - intros Hg. rewrite step_gate, gateEffect_gate. simpl.
    rewrite setStatus_status. change (queueGate (setStatus _ idle s))
      with (queueGate s). rewrite Hg. by rewrite decide_True.
  - intros e. rewrite step_gate, gateEffect_gate. unfold gate_move.
    destruct (handle_gate e s) as [E|[[He E]|[[He E]|(Hg & He & E)]]];
      rewrite E.
    + destruct (queueGate s); try (by left); case_decide; tauto.
    + right; left. done.
    + right; right; left. done.
    + right; right; right; left. repeat split; try done.
      case_decide; tauto.
  - intros Hg. unfold dispatchEffect. by rewrite decide_True.
  - intros e Hg. unfold step in *.
    destruct (effects_dispatched _ Hg) as [-> ->]. split.
    + apply handle_dispatched.
    + apply handle_inflight_sub.
Qed.

Lemma gate_lifecycle_witness :
  queueGate (run_events queue3 [ EvInterrupt ]) = open
  ∧ queueGate (step (run_events queue3 [ EvInterrupt ]) EvInterrupt) = paused
  ∧ queueGate run_paused_idle = paused
  ∧ queueGate (step run_paused_idle EvSubmit) = wait_busy
  ∧ queueGate (step run_wait_busy (EvStatus ses_1 busy)) = wait_idle
  ∧ queueGate (step run_wait_idle (EvStatus ses_1 idle)) = open
  ∧ dispatched (step run_wait_busy (EvStatus ses_1 busy))
    = dispatched queue3
  ∧ q_inputText <$> dispatched (step run_wait_idle (EvStatus ses_1 idle))
    = [lit "message 1"].
Proof.
  assert (interrupt_armed (run_events queue3 [ EvInterrupt ])) as Ha
    by (repeat split; vm_compute; reflexivity).
  assert (submits_directly run_paused_idle) as Hd
    by (repeat split; vm_compute; done).
  assert (default [] (sessionID (props run_wait_busy)) = ses_1) as E3
    by (vm_compute; reflexivity).
  assert (default [] (sessionID (props run_wait_idle)) = ses_1) as E4
    by (vm_compute; reflexivity).
  pose proof (gate_lifecycle (run_events queue3 [ EvInterrupt ]))
    as (H1 & _).
  pose proof (gate_lifecycle run_paused_idle) as (_ & H2 & _).
  pose proof (gate_lifecycle run_wait_busy)
    as (_ & _ & H3 & _ & _ & _ & H5).
  pose proof (gate_lifecycle run_wait_idle) as (_ & _ & _ & H4 & _).
  rewrite E3 in H3. rewrite E4 in H4.
  split; [vm_compute; reflexivity|].
  split; [apply (H1 Ha); vm_compute; discriminate|].
  split; [vm_compute; reflexivity|].
  split; [apply (H2 ltac:(vm_compute; reflexivity) Hd); vm_compute;
          reflexivity|].
  split; [apply H3; [vm_compute; reflexivity|discriminate]|].
  split; [apply H4; vm_compute; reflexivity|].
  split; [|vm_compute; reflexivity].
  rewrite (proj1 (H5 (EvStatus ses_1 busy)
                    ltac:(rewrite H3; [discriminate|vm_compute; reflexivity
                                       |discriminate]))).
  vm_compute. reflexivity.
Defined.

(** ** Committing the edit of a prompt that is gone *)

Lemma editInPlace_absent id inputText ps items :
  id ∉ (q_id <$> items) → editInPlace id inputText ps items = items.
Proof.
  unfold editInPlace. induction items as [|x items IH]; [done|].
  rewrite fmap_cons. intros Hn.
  apply not_elem_of_cons in Hn as [Hx Hn].
  rewrite fmap_cons, (IH Hn). by rewrite decide_False.
Qed.

Lemma submit_not_editing s :
  editingQueuedPrompt s = None → queuedPrompts (submit s) = queuedPrompts s.
Proof. intros He. unfold submit. rewrite He. by frame. Qed.

Lemma cleanupEffect_clears s id :
  queuedEditID s = Some id → id ≠ [] →
  id ∉ (q_id <$> queuedPromptsForSession s) →
  cleanupEffect s = setQueuedCursor None (setQueuedEditID None s).
Proof.
  intros He Hid Hn. unfold cleanupEffect. rewrite He.
  destruct id as [|c id]; [done|].
  rewrite bool_decide_eq_false_2; [done|].
  intros Hex. apply Hn. apply Exists_exists in Hex as (x & Hx & <-).
  by apply list_elem_of_fmap_2.
Qed.

Lemma cleanupEffect_present s id :
  queuedEditID (cleanupEffect s) = Some id → id ≠ [] →
  id ∈ q_id <$> queuedPromptsForSession (cleanupEffect s).
Proof.
  pose proof (cleanupEffect_frame s) as (Hq & _ & _ & _ & Hp & _).
  rewrite (queuedPromptsForSession_frame s (cleanupEffect s) Hp Hq).
  unfold cleanupEffect.
  destruct (queuedEditID s) as [[|c cur]|] eqn:He; try (rewrite He; congruence).
  case_bool_decide as Hex; [|done].
  rewrite He. intros [= <-] _.
  apply Exists_exists in Hex as (x & Hx & <-). by apply list_elem_of_fmap_2.
Qed.

(** C9: committing an edit for an id that is not in the queue changes
    nothing in the queue, in the updater and in [submit] alike, and the
    functions are total, so nothing is raised; the effect that watches the
    editing state clears it, with the cursor, as soon as the target is not
    in the queue of the session, and after every step a prompt that is being
    edited is in the queue. *)
Theorem stale_edit_is_noop :
  (∀ id inputText ps items,
     id ∉ (q_id <$> items) → editInPlace id inputText ps items = items)
  ∧ (∀ s, editingQueuedPrompt s = None →
          queuedPrompts (submit s) = queuedPrompts s)
  ∧ (∀ s id,
       queuedEditID s = Some id → id ≠ [] →
       id ∉ (q_id <$> queuedPromptsForSession s) →
       queuedEditID (cleanupEffect s) = None
       ∧ queuedCursor (cleanupEffect s) = None
       ∧ queuedPrompts (cleanupEffect s) = queuedPrompts s
       ∧ outputs (cleanupEffect s) = outputs s)
  ∧ (∀ s e id,
       queuedEditID (step s e) = Some id → id ≠ [] →
       id ∈ q_id <$> queuedPromptsForSession (step s e)).
Proof.
  split; [exact editInPlace_absent|].
  split; [exact submit_not_editing|]. split.
  - intros s id He Hid Hn. by rewrite (cleanupEffect_clears s id).
  - intros s e id. unfold step, effects.
    set (x := cleanupEffect (handle e s)).
    pose proof (cleanupEffect_present (handle e s) id) as Hc. fold x in Hc.
    pose proof (gateEffect_frame x) as (Hq & _ & He & _ & _ & Hp & _).
    destruct (dispatchEffect_cases (gateEffect x)) as [->|(next & H)].
    + rewrite He, (queuedPromptsForSession_frame x (gateEffect x) Hp Hq).
      exact Hc.
    + destruct H as (_ & _ & _ & Ht & _ & _ & _ & _ & _ & _ & _ & _ & Hid & _).
      rewrite Hid. intros Hs Hne. rewrite Hs in Ht.
      by destruct id.
Qed.

Lemma stale_edit_is_noop_witness :
  queuedEditID stale_edit = Some (lit "prt_3")
  ∧ queuedEditID (cleanupEffect stale_edit) = None
  ∧ queuedCursor (cleanupEffect stale_edit) = None
  ∧ editInPlace (lit "prt_3") (lit "late") []
      (queuedPromptsForSession stale_edit)
    = queuedPromptsForSession stale_edit.
Proof.
  destruct stale_edit_is_noop as (H1 & _ & H3 & _).
  split; [by vm_compute|].
  destruct (H3 stale_edit (lit "prt_3")) as (Hi & Hc & _).
  - by vm_compute.
  - discriminate.
  - vm_compute. apply not_elem_of_nil.
  - split; [exact Hi|]. split; [exact Hc|].
    apply H1. vm_compute. apply not_elem_of_nil.
Defined.

(** ** The effects settle in one round *)

Lemma truthy_Some_cons (o : option jsstring) :
  truthy o = true → ∃ c id, o = Some (c :: id).
Proof. destruct o as [[|c id]|]; try done. by eexists _, _. Qed.

Lemma cleanupEffect_settled s :
  (∀ id, queuedEditID s = Some id → id ≠ [] →
         id ∈ q_id <$> queuedPromptsForSession s) →
  cleanupEffect s = s.
Proof.
  intros H. unfold cleanupEffect.
  destruct (queuedEditID s) as [[|c cur]|] eqn:He; try done.
  rewrite bool_decide_eq_true_2; [done|].
  specialize (H (c :: cur) eq_refl ltac:(done)).
  apply list_elem_of_fmap in H as (x & Hx & Hin).
  apply Exists_exists. by exists x.
Qed.

(** A second round of the effects changes nothing: after one round the
    editing state has its target, the gate has followed the status, and the
    dispatch effect has either sent the head or has nothing to send. *)
Lemma effects_idempotent s : effects (effects s) = effects s.
Proof.
  assert (cleanupEffect (effects s) = effects s) as Hc.
  { apply cleanupEffect_settled. intros id.
    unfold effects. set (x := cleanupEffect s).
    pose proof (cleanupEffect_present s id) as Hp. fold x in Hp.
    pose proof (gateEffect_frame x) as (Hq & _ & He & _ & _ & Hpr & _).
    destruct (dispatchEffect_cases (gateEffect x)) as [->|(next & H)].
    - rewrite He, (queuedPromptsForSession_frame x (gateEffect x) Hpr Hq).
      exact Hp.
    - destruct H as (_ & _ & _ & Ht & _ & _ & _ & _ & _ & _ & _ & _ & Hid & _).
      rewrite Hid. intros Hs Hne. rewrite Hs in Ht. by destruct id. }
  assert (gateEffect (effects s) = effects s) as Hg
    by apply gateEffect_settled, effects_gate_settled.
  unfold effects at 1. rewrite Hc, Hg. unfold effects.
  destruct (dispatchEffect_cases (gateEffect (cleanupEffect s)))
    as [E|(next & H)].
  - by rewrite !E.
  - destruct H as (_ & _ & _ & _ & _ & _ & Hs & _).
    unfold dispatchEffect at 1.
    destruct (decide (queueGate _ ≠ open)); [done|]. by rewrite Hs.
Qed.

(** ** Queueing at the end of the loop *)

Lemma submit_queue_ids s :
  q_id <$> queuedPrompts (submit s) = q_id <$> queuedPrompts s
  ∧ enqueued (submit s) = enqueued s.
Proof.
  destruct (handle_queue EvSubmit s)
    as [[Hq He]|[(id & t & ps & Hq & He)|(item & [=] & _)]];
    simpl in Hq, He; rewrite Hq, He; [done|].
  by rewrite editInPlace_ids.
Qed.

(** C10, as amended: when the session is idle, or there is no session, or
    the composer is not in normal mode, or the trimmed input is empty or
    starts with a slash, the action appends nothing to the queue; and
    unless the autocomplete popup is open, in which case the action does
    nothing at all, it does what [submit] does. *)
Theorem queueAtEndOfLoop_submits (s : State) (id : jsstring) :
  truthy (sessionID (props s)) = false ∨ status s = idle ∨ mode s ≠ normal
  ∨ trim (prompt_input s) = []
  ∨ startsWith (trim (prompt_input s)) (lit "/") = true →
  q_id <$> queuedPrompts (queueAtEndOfLoop id s) = q_id <$> queuedPrompts s
  ∧ enqueued (queueAtEndOfLoop id s) = enqueued s
  ∧ (autocomplete_visible (env s) = false → queueAtEndOfLoop id s = submit s)
  ∧ (autocomplete_visible (env s) = true → queueAtEndOfLoop id s = s).
Proof.
  intros H. pose proof (submit_queue_ids s) as [Hq He].
  unfold queueAtEndOfLoop.
  destruct (disabled (props s)) eqn:Hd.
  { repeat split; try done. intros _. unfold submit. by rewrite Hd. }
  destruct (autocomplete_visible (env s)) eqn:Ha; [done|].
  destruct (negb (truthy (sessionID (props s))) || bool_decide (status s = idle)
            || bool_decide (mode s ≠ normal)) eqn:E1; [done|].
  apply orb_false_elim in E1 as [E1 E3].
  apply orb_false_elim in E1 as [E1 E2].
  apply negb_false_iff in E1. apply bool_decide_eq_false in E2, E3.
  destruct (bool_decide (trim (prompt_input s) = [])
            || startsWith (trim (prompt_input s)) (lit "/")) eqn:E4; [done|].
  apply orb_false_elim in E4 as [E4 E5]. apply bool_decide_eq_false in E4.
  destruct H as [H|[H|[H|[H|H]]]]; first [congruence | tauto].
Qed.

Lemma queueAtEndOfLoop_submits_witness :
  queueAtEndOfLoop (lit "prt_9") idle_prompt = submit idle_prompt
  ∧ queuedPrompts (queueAtEndOfLoop (lit "prt_9") idle_prompt) = []
  ∧ outputs (queueAtEndOfLoop (lit "prt_9") idle_prompt)
    = [SessionPrompt ses_1 {| providerID := lit "openai";
                              modelID := lit "gpt-5" |}
         None (lit "build") (lit "hello") [];
       HistoryAppend (lit "hello") [] normal; OnSubmit].
Proof.
  destruct (queueAtEndOfLoop_submits idle_prompt (lit "prt_9"))
    as (_ & _ & H & _).
  - right; left. by vm_compute.
  - split; [apply H; by vm_compute|]. split; by vm_compute.
Defined.

(** C10, as stated, fails: with the autocomplete popup open on the input
    [/usage] of an idle session, the action does nothing, where [submit]
    shows the usage and clears the prompt. *)
Lemma queueAtEndOfLoop_popup_not_submit :
  status usage_popup = idle
  ∧ startsWith (trim (prompt_input usage_popup)) (lit "/") = true
  ∧ outputs (queueAtEndOfLoop (lit "prt_9") usage_popup) = []
  ∧ outputs (submit usage_popup) = [ShowUsage (lit "/usage"); OnSubmit]
  ∧ queueAtEndOfLoop (lit "prt_9") usage_popup ≠ submit usage_popup.
Proof.
  split; [by vm_compute|]. split; [by vm_compute|].
  split; [by vm_compute|]. split; [by vm_compute|].
  intros H. apply (f_equal outputs) in H. vm_compute in H. discriminate H.
Qed.

(** ** The navigator *)

Lemma at_index_lookup {A} (l : list A) (i : Z) :
  0 <= i → at_index l i = l !! Z.to_nat i.
Proof. intros Hi. unfold at_index. by rewrite (proj2 (Z.ltb_ge i 0)). Qed.

(** From a selection, [editQueued] moves the cursor by [direction] in the
    list of the queued prompts of the session, newest first, and wraps at
    both ends; it loads the prompt under the cursor into the input. *)
Lemma editQueued_cursor s direction current :
  disabled (props s) = false → truthy (sessionID (props s)) = true →
  mode s = normal → queuedCursor s = Some current →
  direction = -1 ∨ direction = 1 →
  let items := queuedPromptsForSessionNewest s in
  let len := Z.of_nat (length items) in
  0 <= current < len →
  let next := (current + direction) `mod` len in
  queuedCursor (editQueued direction s) = Some next
  ∧ queuedEditID (editQueued direction s) = q_id <$> items !! Z.to_nat next
  ∧ Some (prompt_input (editQueued direction s))
    = q_inputText <$> items !! Z.to_nat next.
Proof.
  intros Hd Ht Hm Hc Hdir items len Hcur next.
  assert (next = if current + direction <? 0 then len - 1
                 else if current + direction >=? len then 0
                 else current + direction) as Hnext.
  { subst next. destruct (Z.ltb_spec (current + direction) 0).
    - replace (current + direction) with (-1 * len + (len - 1)) by lia.
      rewrite Z.add_comm, Z_mod_plus_full. apply Z.mod_small. lia.
    - destruct (Z.geb_spec (current + direction) len).
      + replace (current + direction) with (1 * len + 0) by lia.
        rewrite Z.add_comm, Z_mod_plus_full. apply Z.mod_small. lia.
      + apply Z.mod_small. lia. }
  assert (0 <= next < len) as Hr by (apply Z.mod_pos_bound; lia).
  destruct (items !! Z.to_nat next) as [target|] eqn:Hl.
  2: { apply lookup_ge_None in Hl. lia. }
  unfold editQueued. rewrite Hd, Ht. simpl.
  rewrite decide_False by (rewrite Hm; auto).
  fold items. fold len.
  assert ((len =? 0) = false) as -> by lia.
  rewrite Hc, <- Hnext, at_index_lookup, Hl by lia.
  unfold queuedCursor, queuedEditID, prompt_input. simpl.
  rewrite !restore_sig. simpl. split; [done|]. split; [done|].
  unfold restoreExtmarksFromParts.
  generalize (imap (λ i p, (i, p)) (q_parts target)). intros l.
  match goal with |- context [foldl restore_part ?x l] => set (s0 := x) end.
  assert (st_input (store s0) = q_inputText target) as H0 by done.
  clearbody s0. revert s0 H0.
  induction l as [|x l IH]; intros s0 H0; simpl; [by rewrite H0|].
  apply IH. unfold restore_part.
  destruct (part_source x.2) as [[? ? [|]]|]; done.
Qed.

(** C7 on the code: from no selection, [editQueued(-1)] on a queue of three
    selects the newest prompt, then the oldest, then the middle one, and the
    fourth call selects the newest again; [editQueued(1)] selects the
    oldest, the newest, the middle one and the oldest again. *)
Theorem editQueued_visits :
  (λ n, queuedEditID (run_events queue3 (replicate n (EvEditQueued (-1)))))
    <$> [1; 2; 3; 4]%nat
  = [Some (lit "prt_3"); Some (lit "prt_1"); Some (lit "prt_2");
     Some (lit "prt_3")]
  ∧ (λ n, prompt_input (run_events queue3 (replicate n (EvEditQueued (-1)))))
      <$> [1; 2; 3; 4]%nat
    = [lit "message 3"; lit "message 1"; lit "message 2"; lit "message 3"]
  ∧ (λ n, queuedCursor (run_events queue3 (replicate n (EvEditQueued (-1)))))
      <$> [1; 2; 3; 4]%nat
    = [Some 0; Some 2; Some 1; Some 0]
  ∧ (λ n, queuedEditID (run_events queue3 (replicate n (EvEditQueued 1))))
      <$> [1; 2; 3; 4]%nat
    = [Some (lit "prt_1"); Some (lit "prt_3"); Some (lit "prt_2");
       Some (lit "prt_1")]
  ∧ q_id <$> queuedPromptsForSessionNewest queue3
    = [lit "prt_3"; lit "prt_2"; lit "prt_1"].
Proof. repeat split; by vm_compute. Qed.

(* ================================================================== *)
(** * Further properties *)

(** ** What is in the queue *)

Lemma resolvePromptInput_parts_non_text c :
  Forall (λ p, is_text p = false) (resolvePromptInput c).2.
Proof.
  unfold resolvePromptInput. simpl. apply Forall_forall. intros p Hp.
  by apply list_elem_of_filter in Hp as [? _].
Qed.

Lemma editInPlace_queued_ok id t ps items :
  Forall (λ p, is_text p = false) ps →
  Forall queued_ok items → Forall queued_ok (editInPlace id t ps items).
Proof.
  intros Hps. unfold editInPlace. induction 1 as [|x l [Hx Hs] Hl IH];
    [constructor|].
  rewrite fmap_cons. constructor; [|exact IH].
  destruct (decide (q_id x = id)); by split.
Qed.

Lemma truthy_default (o : option jsstring) :
  truthy o = true → default [] o ≠ [].
Proof. by destruct o as [[|c id]|]. Qed.

(** Every handler keeps the queue well formed. *)
Lemma handle_queued_ok e s :
  Forall queued_ok (queuedPrompts s) →
  Forall queued_ok (queuedPrompts (handle e s)).
Proof.
  intros Hq.
  assert (∀ id, Forall queued_ok
            (editInPlace id (resolvePromptInput (composition s)).1
               (resolvePromptInput (composition s)).2 (queuedPrompts s)))
    as He.
  { intros id. apply editInPlace_queued_ok; [|done].
    apply resolvePromptInput_parts_non_text. }
  assert (Forall queued_ok (queuedPrompts (submit s))) as Hsub.
  { unfold submit. repeat case_match; first [by frame | frame; apply He]. }
  destruct e as [p|e|sid st|value marks|st ta| |i created|id|direction| | |i ok];
    try exact Hsub; try (clear Hsub He; by frame).
  unfold handle, queueAtEndOfLoop.
  destruct (disabled (props s)); [done|].
  destruct (autocomplete_visible (env s)); [done|].
  destruct (negb (truthy (sessionID (props s))) || bool_decide (status s = idle)
            || bool_decide (mode s ≠ normal)) eqn:E1; [exact Hsub|].
  destruct (bool_decide (trim (prompt_input s) = [])
            || startsWith (trim (prompt_input s)) (lit "/")); [exact Hsub|].
  destruct (model_current (env s)) as [m|]; [|clear Hsub He; by frame].
  unfold queuedPrompts in *. simpl. apply Forall_app. split; [done|].
  constructor; [|constructor]. split; simpl.
  - apply (resolvePromptInput_parts_non_text (composition s)).
  - apply orb_false_elim in E1 as [E1 _].
    apply orb_false_elim in E1 as [E1 _].
    apply negb_false_iff in E1. by apply truthy_default.
Qed.

Lemma Forall_sublist {A} (P : A → Prop) (l k : list A) :
  l `sublist_of` k → Forall P k → Forall P l.
Proof.
  intros Hs Hk. apply Forall_forall. intros x Hx.
  rewrite Forall_forall in Hk. apply Hk. by eapply elem_of_sublist.
Qed.

Lemma effects_queued_ok s :
  Forall queued_ok (queuedPrompts s) → Forall queued_ok (dispatched s) →
  Forall queued_ok (queuedPrompts (effects s))
  ∧ Forall queued_ok (dispatched (effects s)).
Proof.
  intros Hq Hd. unfold effects.
  pose proof (cleanup_gate_frame s) as (Hq1 & _ & Hr1 & Hp1 & _).
  destruct (dispatchEffect_cases (gateEffect (cleanupEffect s)))
    as [->|(next & Hn & _ & _ & _ & _ & Hq2 & _ & _ & Hd2 & _)].
  - unfold dispatched. by rewrite Hq1, Hr1.
  - rewrite Hq2, Hd2. unfold dispatched. rewrite Hq1, Hr1.
    fold (dispatched s). split.
    + eapply Forall_sublist; [apply removeQueued_sublist|done].
    + apply Forall_app. split; [done|]. constructor; [|constructor].
      apply queuedPromptsForSession_head in Hn as (sid & rest & _ & _ & Hf).
      rewrite Hq1 in Hf. rewrite Forall_forall in Hq. apply Hq.
      assert (next ∈ forSession sid (queuedPrompts s)) as Hin
        by (rewrite Hf; left).
      by apply list_elem_of_filter in Hin as [_ ?].
Qed.

Lemma reachable_queued_ok s :
  reachable s →
  Forall queued_ok (queuedPrompts s) ∧ Forall queued_ok (dispatched s).
Proof.
  induction 1 as [|s e _ [IHq IHd] _]; [by split; constructor|].
  apply effects_queued_ok.
  - by apply handle_queued_ok.
  - by rewrite handle_dispatched.
Qed.

Lemma reachable_queue_NoDup s :
  reachable s → NoDup (q_id <$> queuedPrompts s).
Proof.
  intros Hr. destruct (reachable_queue_inv s Hr) as (_ & Hnd & _).
  rewrite fmap_app in Hnd. by apply NoDup_app in Hnd as (_ & _ & ?).
Qed.

(** X1: in every reachable state the queued prompts have pairwise different
    ids and belong to a session, and neither they nor the prompts that were
    dispatched carry a text part: collapsed pastes are expanded into the
    text when a prompt is queued or its edit is committed. *)
Theorem queued_prompts_well_formed (s : State) :
  reachable s →
  NoDup (q_id <$> queuedPrompts s)
  ∧ Forall queued_ok (queuedPrompts s)
  ∧ Forall queued_ok (dispatched s).
Proof.
  intros Hr. split; [by apply reachable_queue_NoDup|].
  by apply reachable_queued_ok.
Qed.

Lemma queued_prompts_well_formed_witness :
  NoDup (q_id <$> queuedPrompts first_inflight)
  ∧ Forall queued_ok (queuedPrompts first_inflight)
  ∧ Forall queued_ok (dispatched first_inflight).
Proof.
  exact (queued_prompts_well_formed first_inflight first_inflight_reachable).
Defined.

(** ** The dispatcher does not stall *)

(** X2: after every step, when the gate is open, no dispatch is pending, no
    queued prompt is being edited and the session is idle, the queue of the
    session is empty: whatever could be dispatched has been. *)
Theorem dispatcher_never_stalls (s : State) (e : Event) :
  queueGate (step s e) = open →
  sendingQueuedPrompt (step s e) = false →
  truthy (queuedEditID (step s e)) = false →
  status (step s e) = idle →
  queuedPromptsForSession (step s e) = [].
Proof.
  unfold step, effects.
  set (x := gateEffect (cleanupEffect (handle e s))).
  destruct (dispatchEffect_cases x) as [E|(next & H)].
  - rewrite E. intros Hg Hs He Hi.
    unfold dispatchEffect in E.
    rewrite decide_False in E by (by intros ?).
    rewrite Hs, He in E. rewrite decide_False in E by (by intros ?).
    destruct (queuedPromptsForSession x) as [|next rest] eqn:Hq; [done|].
    simpl in E. apply (f_equal sendingQueuedPrompt) in E.
    rewrite Hs in E. done.
  - destruct H as (_ & _ & _ & _ & _ & _ & Hs & _). rewrite Hs. done.
Qed.

Lemma dispatcher_never_stalls_witness :
  queuedPromptsForSession (step edit_drain (EvDispatchSettled 0 true)) = [].
Proof.
  apply dispatcher_never_stalls; vm_compute; reflexivity.
Defined.

(** ** Switching the session *)

Lemma effects_editing_present s : editing_present (effects s).
Proof.
  intros id. unfold effects. set (x := cleanupEffect s).
  pose proof (cleanupEffect_present s id) as Hp. fold x in Hp.
  pose proof (gateEffect_frame x) as (Hq & _ & He & _ & _ & Hpr & _).
  destruct (dispatchEffect_cases (gateEffect x)) as [->|(next & H)].
  - rewrite He, (queuedPromptsForSession_frame x (gateEffect x) Hpr Hq).
    exact Hp.
  - destruct H as (_ & _ & _ & Ht & _ & _ & _ & _ & _ & _ & _ & _ & Hid & _).
    rewrite Hid. intros Hs Hne. rewrite Hs in Ht. by destruct id.
Qed.

Lemma reachable_editing_present s : reachable s → editing_present s.
Proof.
  destruct 1 as [|s e _ _]; [by intros id|]. apply effects_editing_present.
Qed.

Lemma NoDup_fmap_eq {A B} (f : A → B) (l : list A) (x y : A) :
  NoDup (f <$> l) → x ∈ l → y ∈ l → f x = f y → x = y.
Proof.
  induction l as [|z l IH]; [by intros _ ?%elem_of_nil|].
  rewrite fmap_cons. intros [Hz Hnd]%NoDup_cons Hx Hy E.
  apply elem_of_cons in Hx as [->|Hx]; apply elem_of_cons in Hy as [->|Hy].
  - done.
  - exfalso. apply Hz. rewrite E. by apply list_elem_of_fmap_2.
  - exfalso. apply Hz. rewrite <- E. by apply list_elem_of_fmap_2.
  - by apply IH.
Qed.

Lemma effects_editing s :
  truthy (queuedEditID (effects s)) = true → queuedEditID (effects s) = queuedEditID (cleanupEffect s).
Proof.
  unfold effects. set (x := cleanupEffect s).
  pose proof (gateEffect_frame x) as (_ & _ & He & _).
  destruct (dispatchEffect_cases (gateEffect x)) as [->|(next & H)];
    [by rewrite He|].
  destruct H as (_ & _ & _ & _ & _ & _ & _ & _ & _ & _ & _ & _ & Hid & _).
  by rewrite Hid, He.
Qed.

(** X3: when the component is given another session, the gate is open after
    the step and no queued prompt is being edited any more, while the draft
    in the input stays and a pending dispatch stays pending; as long as it
    is pending, nothing of the queue of the new session is dispatched. *)
Theorem session_switch (s : State) (p : Props) :
  reachable s → sessionID p ≠ sessionID (props s) →
  let s' := step s (EvProps p) in
  queueGate s' = open
  ∧ truthy (queuedEditID s') = false
  ∧ prompt_input s' = prompt_input s
  ∧ prompt_parts s' = prompt_parts s
  ∧ inflight s ⊆ inflight s'
  ∧ (inflight s ≠ [] → dispatched s' = dispatched s).
Proof.
  intros Hr Hne s'.
  pose proof (reachable_editing_present s Hr) as Hed.
  pose proof (reachable_queue_NoDup s Hr) as Hnd.
  pose proof (reachable_single_flight s Hr) as Hsf.
  set (x := handle (EvProps p) s).
  assert (x = setQueueGate open
                {| props := p; env := env s; store := store s;
                   input := input s; sig := sig s; run := run s |}) as Hx.
  { subst x. simpl. unfold setProps. by rewrite bool_decide_eq_true_2. }
  assert (s' = effects x) as -> by done.
  pose proof (effects_frame x) as (_ & _ & Hst & _).
  split_and!.
  - rewrite effects_gate, gateEffect_gate, Hx. done.
  - destruct (truthy (queuedEditID (effects x))) eqn:Ht; [|done]. exfalso.
    pose proof (effects_editing x Ht) as E. rewrite E in Ht.
    apply truthy_Some_cons in Ht as (c & id & Hid).
    pose proof (cleanupEffect_present x (c :: id) Hid ltac:(done)) as Hin.
    pose proof (cleanupEffect_frame x) as (Hq & _ & _ & _ & Hp & _).
    rewrite (queuedPromptsForSession_frame x (cleanupEffect x) Hp Hq) in Hin.
    assert (queuedEditID s = Some (c :: id)) as Hs.
    { assert (queuedEditID x = queuedEditID s) as Hex by (by rewrite Hx).
      revert Hid. unfold cleanupEffect. rewrite Hex.
      destruct (queuedEditID s) as [[|c' cur]|] eqn:E0;
        rewrite ?Hex, ?E0; try done.
      case_bool_decide; [rewrite Hex; congruence|done]. }
    specialize (Hed (c :: id) Hs ltac:(done)).
    apply list_elem_of_fmap in Hin as (y & Ey & Hy).
    apply list_elem_of_fmap in Hed as (z & Ez & Hz).
    unfold queuedPromptsForSession in Hy, Hz.
    assert (queuedPrompts x = queuedPrompts s) as Hqx by (by rewrite Hx).
    assert (props x = p) as Hpx by (by rewrite Hx).
    rewrite Hpx, Hqx in Hy.
    destruct (sessionID p) as [[|c1 sid1]|] eqn:E1;
      try (by apply elem_of_nil in Hy).
    destruct (sessionID (props s)) as [[|c2 sid2]|] eqn:E2;
      try (by apply elem_of_nil in Hz).
    apply list_elem_of_filter in Hy as [Hys Hy].
    apply list_elem_of_filter in Hz as [Hzs Hz].
    assert (y = z) as ->.
    { eapply (NoDup_fmap_eq q_id); [exact Hnd|done|done|congruence]. }
    congruence.
  - unfold prompt_input. by rewrite Hst, Hx.
  - unfold prompt_parts. by rewrite Hst, Hx.
  - unfold effects.
    pose proof (cleanup_gate_frame x) as (_ & _ & Hr1 & _).
    destruct (dispatchEffect_cases (gateEffect (cleanupEffect x)))
      as [->|(next & H)].
    + unfold inflight. by rewrite Hr1, Hx.
    + destruct H as (_ & _ & _ & _ & _ & _ & _ & Hi & _). rewrite Hi.
      unfold inflight at 2. rewrite Hr1, Hx. simpl.
      intros q Hq. apply elem_of_app. by left.
  - intros Hin. unfold effects.
    pose proof (cleanup_gate_frame x) as (_ & Hs1 & Hr1 & _).
    destruct (dispatchEffect_cases (gateEffect (cleanupEffect x)))
      as [->|(next & H)].
    + unfold dispatched. by rewrite Hr1, Hx.
    + destruct H as (_ & _ & Hf & _). rewrite Hs1, Hx in Hf. simpl in Hf.
      change (sendingQueuedPrompt s = false) in Hf.
      unfold single_flight in Hsf. rewrite Hf in Hsf.
      by destruct (inflight s).
Qed.

Lemma session_switch_witness :
  let s' := step first_inflight
              (EvProps {| disabled := false;
                          sessionID := Some (lit "ses_2") |}) in
  queueGate s' = open
  ∧ truthy (queuedEditID s') = false
  ∧ prompt_input s' = prompt_input first_inflight
  ∧ prompt_parts s' = prompt_parts first_inflight
  ∧ inflight first_inflight ⊆ inflight s'
  ∧ (inflight first_inflight ≠ [] → dispatched s' = dispatched first_inflight).
Proof.
  apply session_switch; [exact first_inflight_reachable|].
  vm_compute. discriminate.
Defined.

(** ** Loading a queued prompt and committing it *)

Lemma restore_store ps s :
  st_input (store (restoreExtmarksFromParts ps s)) = st_input (store s) ∧
  st_parts (store (restoreExtmarksFromParts ps s)) = st_parts (store s) ∧
  st_mode (store (restoreExtmarksFromParts ps s)) = st_mode (store s) ∧
  st_interrupt (store (restoreExtmarksFromParts ps s)) = st_interrupt (store s) ∧
  ta_plainText (input (restoreExtmarksFromParts ps s)) = ta_plainText (input s).
Proof.
  unfold restoreExtmarksFromParts.
  generalize (imap (λ i p, (i, p)) ps). intros l.
  set (s0 := setStore_extmarkToPartIndex ∅ (extmarks_clear s)).
  assert (st_input (store s0) = st_input (store s) ∧
          st_parts (store s0) = st_parts (store s) ∧
          st_mode (store s0) = st_mode (store s) ∧
          st_interrupt (store s0) = st_interrupt (store s) ∧
          ta_plainText (input s0) = ta_plainText (input s)) as H by done.
  clearbody s0. revert s0 H.
  induction l as [|x l IH]; intros s0 H; simpl; [done|].
  apply IH. unfold restore_part.
  destruct (part_source x.2) as [[? ? [|]]|]; done.
Qed.










Lemma queue3_reachable : reachable queue3.
Proof.
  apply reachable_run; [constructor|].
  refine (bool_decide_unpack _ _). vm_compute. exact I.
Qed.


(** ** Queueing a prompt while the session works *)

Lemma effects_not_idle s :
  status s ≠ idle →
  queuedPrompts (effects s) = queuedPrompts s ∧ run (effects s) = run s.
Proof.
  intros Hs. unfold effects.
  pose proof (cleanup_gate_frame s) as (Hq & _ & Hr & Hp & He).
  destruct (dispatchEffect_cases (gateEffect (cleanupEffect s)))
    as [->|(next & _ & _ & _ & _ & Hi & _)]; [done|].
  by rewrite (status_frame s _ Hp He) in Hi.
Qed.

(** [queueAtEndOfLoop] past its guards. *)
Lemma queueAtEndOfLoop_queues id s m :
  queues_input s → model_current (env s) = Some m →
  queueAtEndOfLoop id s =
    emit (ToastShow info
            (lit "Queued for end of loop (" ++
             JS.of_nat (S (length (queuedPromptsForSession s))) ++ lit ")")
            2000)
      (clearPrompt
         (emit (HistoryAppend (prompt_input s) (prompt_parts s) (mode s))
            (setQueuedEditID None
               (setQueuedCursor None
                  (log_enqueued
                     {| q_id := id;
                        q_sessionID := default [] (sessionID (props s));
                        q_inputText := (resolvePromptInput (composition s)).1;
                        q_parts := (resolvePromptInput (composition s)).2;
                        q_agent := agent_current (env s);
                        q_model := m;
                        q_variant := variant_current (env s) |}
                     (setQueuedPrompts
                        (λ items, items ++
                           [{| q_id := id;
                               q_sessionID := default [] (sessionID (props s));
                               q_inputText :=
                                 (resolvePromptInput (composition s)).1;
                               q_parts :=
                                 (resolvePromptInput (composition s)).2;
                               q_agent := agent_current (env s);
                               q_model := m;
                               q_variant := variant_current (env s) |}])
                        s)))))).
Proof.
  intros (Hd & Ha & Hs & Hst & Hm & Ht & Hsl & _) Hmod.
  unfold queueAtEndOfLoop. cbv zeta. rewrite Hd, Ha, Hs, Hsl, Hmod.
  rewrite (bool_decide_eq_false_2 (status s = idle)) by done.
  rewrite (bool_decide_eq_false_2 (mode s ≠ normal))
    by (intros H; apply H, Hm).
  rewrite (bool_decide_eq_false_2 (trim (prompt_input s) = [])) by done.
  cbn [negb orb]. by destruct m.
Qed.

(** X5: when the session works and the input holds a prompt, queueing it
    appends one prompt to the queue, with the resolved text and parts and
    the current agent, model and variant, and leaves every queued prompt as
    it was, also one that was being edited; the editing state and the input
    are cleared, and nothing is sent or dispatched in the step. *)
Theorem queueAtEndOfLoop_appends (s : State) (id : jsstring) (m : Model) :
  queues_input s → model_current (env s) = Some m →
  let item := {| q_id := id;
                 q_sessionID := default [] (sessionID (props s));
                 q_inputText := (resolvePromptInput (composition s)).1;
                 q_parts := (resolvePromptInput (composition s)).2;
                 q_agent := agent_current (env s);
                 q_model := m;
                 q_variant := variant_current (env s) |} in
  let s' := step s (EvQueueAtEndOfLoop id) in
  queuedPrompts s' = queuedPrompts s ++ [item]
  ∧ queuedPromptsForSession s' = queuedPromptsForSession s ++ [item]
  ∧ queuedEditID s' = None
  ∧ queuedCursor s' = None
  ∧ prompt_input s' = [] ∧ prompt_parts s' = []
  ∧ ta_plainText (input s') = [] ∧ ta_extmarks (input s') = []
  ∧ dispatched s' = dispatched s
  ∧ outputs s' = outputs s ++
      [HistoryAppend (prompt_input s) (prompt_parts s) normal;
       OnSubmit;
       ToastShow info
         (lit "Queued for end of loop (" ++
          JS.of_nat (S (length (queuedPromptsForSession s))) ++ lit ")")
         2000].
Proof.
  intros Hq Hmod item s'.
  pose proof (queueAtEndOfLoop_queues id s m Hq Hmod) as E.
  fold item in E.
  destruct Hq as (Hd & Ha & Hs & Hst & Hm & Ht & Hsl & _).
  set (x := handle (EvQueueAtEndOfLoop id) s).
  assert (x = queueAtEndOfLoop id s) as Hx by done. rewrite E in Hx.
  assert (props x = props s ∧ env x = env s) as [Hpx Hex] by (by rewrite Hx).
  assert (status x ≠ idle) as Hstx by (by rewrite (status_frame s x)).
  destruct (effects_not_idle x Hstx) as [Hq1 Hr1].
  destruct (effects_frame x) as (Hp1 & He1 & Hst1 & Hin1 & _).
  assert (queuedPrompts x = queuedPrompts s ++ [item]) as Hqx
    by (by rewrite Hx).
  assert (queuedEditID x = None ∧ queuedCursor x = None) as [Hidx Hcx]
    by (by rewrite Hx).
  assert (s' = effects x) as -> by done.
  assert (queuedEditID (effects x) = None ∧ queuedCursor (effects x) = None)
    as [Hid1 Hc1].
  { unfold effects.
    assert (cleanupEffect x = x) as ->
      by (unfold cleanupEffect; by rewrite Hidx).
    pose proof (gateEffect_frame x) as (_ & _ & He' & Hc' & _).
    destruct (dispatchEffect_cases (gateEffect x))
      as [->|(next & _ & _ & _ & _ & _ & _ & _ & _ & _ & _ & _ & _ & Hi & Hc & _)].
    - by rewrite He', Hc'.
    - by rewrite Hi, Hc, He', Hc'. }
  split_and!.
  - by rewrite Hq1.
  - unfold queuedPromptsForSession. rewrite Hp1, Hq1, Hqx, Hpx.
    destruct (sessionID (props s)) as [[|c sid]|]; try done.
    unfold forSession. rewrite filter_app. f_equal.
    by rewrite filter_cons_True.
  - done.
  - done.
  - unfold prompt_input. by rewrite Hst1, Hx.
  - unfold prompt_parts. by rewrite Hst1, Hx.
  - by rewrite Hin1, Hx.
  - by rewrite Hin1, Hx.
  - unfold dispatched. by rewrite Hr1, Hx.
  - unfold outputs. rewrite Hr1, Hx. unfold clearPrompt. cbn.
    fold (mode s). rewrite Hm. by rewrite <- !(assoc_L (++)).
Qed.

Lemma queueAtEndOfLoop_appends_witness :
  let s := editing_draft in
  let id := lit "prt_4" in
  let item := {| q_id := id;
                 q_sessionID := default [] (sessionID (props s));
                 q_inputText := (resolvePromptInput (composition s)).1;
                 q_parts := (resolvePromptInput (composition s)).2;
                 q_agent := agent_current (env s);
                 q_model := gpt5;
                 q_variant := variant_current (env s) |} in
  let s' := step s (EvQueueAtEndOfLoop id) in
  queuedPrompts s' = queuedPrompts s ++ [item]
  ∧ queuedPromptsForSession s' = queuedPromptsForSession s ++ [item]
  ∧ queuedEditID s' = None
  ∧ queuedCursor s' = None
  ∧ prompt_input s' = [] ∧ prompt_parts s' = []
  ∧ ta_plainText (input s') = [] ∧ ta_extmarks (input s') = []
  ∧ dispatched s' = dispatched s
  ∧ outputs s' = outputs s ++
      [HistoryAppend (prompt_input s) (prompt_parts s) normal;
       OnSubmit;
       ToastShow info
         (lit "Queued for end of loop (" ++
          JS.of_nat (S (length (queuedPromptsForSession s))) ++ lit ")")
         2000].
Proof.
  apply (queueAtEndOfLoop_appends editing_draft (lit "prt_4") gpt5).
  - unfold queues_input.
    split_and!; vm_compute; first [reflexivity|discriminate].
  - vm_compute. reflexivity.
Defined.

(** ** Without a model *)

Ltac adds_no_send :=
  unfold_state; simpl; rewrite ?restore_run; simpl;
  first
    [ exists []; by rewrite app_nil_r
    | eexists; split_and!;
      [ rewrite <- ?(assoc_L (++)); reflexivity
      | repeat constructor | done | done ] ].

(** X6: while no model is selected and no submit waits for a session to be
    created, no handler sends anything to a session, creates a session or
    queues a prompt: the calls a handler adds are toasts, dialogs and the
    like. *)
Theorem no_model_nothing_sent (s : State) (e : Event) :
  model_current (env s) = None → r_creating (run s) = [] →
  ∃ extra,
    outputs (handle e s) = outputs s ++ extra
    ∧ Forall (λ o, is_send o = false) extra
    ∧ enqueued (handle e s) = enqueued s
    ∧ r_creating (run (handle e s)) = [].
Proof.
  intros Hmod Hcre.
  assert (∃ extra,
    outputs (submit s) = outputs s ++ extra
    ∧ Forall (λ o, is_send o = false) extra
    ∧ enqueued (submit s) = enqueued s
    ∧ r_creating (run (submit s)) = []) as Hsub.
  { unfold submit. rewrite Hmod. unfold clearPrompt, promptModelWarning.
    repeat case_match; adds_no_send. }
  destruct e as [p|e|sid st|value marks|st ta| |i created|id|direction| | |i ok];
    try exact Hsub.
  - simpl. unfold setProps. case_match; adds_no_send.
  - adds_no_send.
  - adds_no_send.
  - simpl. unfold onContentChange, syncExtmarksWithPromptParts.
    repeat case_match; adds_no_send.
  - adds_no_send.
  - simpl. unfold submit_resume. rewrite Hcre. adds_no_send.
  - simpl. unfold queueAtEndOfLoop. rewrite Hmod. unfold promptModelWarning.
    repeat case_match; try exact Hsub; adds_no_send.
  - simpl. unfold editQueued. repeat case_match; adds_no_send.
  - simpl. unfold interruptSession. repeat case_match; adds_no_send.
  - adds_no_send.
  - simpl. unfold dispatchSettled. repeat case_match; adds_no_send.
Qed.

Lemma no_model_nothing_sent_witness :
  ∃ extra,
    outputs (handle EvSubmit no_model_prompt)
    = outputs no_model_prompt ++ extra
    ∧ Forall (λ o, is_send o = false) extra
    ∧ enqueued (handle EvSubmit no_model_prompt) = enqueued no_model_prompt
    ∧ r_creating (run (handle EvSubmit no_model_prompt)) = [].
Proof.
  apply (no_model_nothing_sent no_model_prompt EvSubmit);
    vm_compute; reflexivity.
Defined.

(** ** Reachable states are settled *)

Lemma reachable_settled s : reachable s → effects s = s.
Proof.
  destruct 1 as [|s e _ _]; [by vm_compute|]. apply effects_idempotent.
Qed.

(** The effects read the props, the collaborators and the signals only: a
    state that differs from a settled one in the store, the text area and
    the calls made is settled. *)
Lemma settled_frame_status s s' :
  reachable s → props s' = props s → status s' = status s → sig s' = sig s →
  effects s' = s'.
Proof.
  intros Hr Hp Hst Hg.
  pose proof (reachable_settled s Hr) as Hs.
  pose proof (reachable_editing_present s Hr) as Hed.
  pose proof (reachable_gate_settled s Hr) as Hgs.
  assert (queuedPrompts s' = queuedPrompts s) as Hq
    by (unfold queuedPrompts; by rewrite Hg).
  assert (queuedPromptsForSession s' = queuedPromptsForSession s) as Hqs
    by (by apply queuedPromptsForSession_frame).
  assert (cleanupEffect s = s) as Hc1 by (by apply cleanupEffect_settled).
  assert (gateEffect s = s) as Hg1 by (by apply gateEffect_settled).
  assert (dispatchEffect s = s) as Hd1.
  { unfold effects in Hs. by rewrite Hc1, Hg1 in Hs. }
  unfold effects.
  rewrite (cleanupEffect_settled s').
  2:{ unfold editing_present, queuedEditID in *. by rewrite Hqs, Hg. }
  rewrite (gateEffect_settled s').
  2:{ unfold gate_settled, queueGate in *. by rewrite Hst, Hg. }
  destruct (dispatchEffect_cases s')
    as [E|(next & Hn & Hgo & Hsf & Ht & Hi & _)]; [done|].
  exfalso. revert Hd1. unfold dispatchEffect.
  unfold queueGate, sendingQueuedPrompt, queuedEditID in *.
  rewrite Hg in Hgo, Hsf, Ht. rewrite Hst in Hi. rewrite Hqs in Hn.
  rewrite decide_False by (intros H; by apply H).
  rewrite Hsf, Ht, Hn.
  rewrite decide_False by (intros H; by apply H).
  intros E. apply (f_equal (λ x, sig_sendingQueuedPrompt (sig x))) in E.
  simpl in E. congruence.
Qed.

Lemma settled_frame s s' :
  reachable s → props s' = props s → env s' = env s → sig s' = sig s →
  effects s' = s'.
Proof.
  intros Hr Hp He Hg. apply (settled_frame_status s); try done.
  by apply status_frame.
Qed.

(** ** Interrupting the session *)

Lemma interruptSession_counts s sid :
  interrupt_armed s → sessionID (props s) = Some sid → interrupt s + 1 < 2 →
  interruptSession s
  = emit DialogClear (setStore_interrupt (interrupt s + 1) s).
Proof.
  intros (Ha & Hf & Hm & Ht) Hsid Hi. unfold interruptSession.
  rewrite Ha, Hf, Hsid. rewrite Hsid in Ht. cbn [negb].
  rewrite decide_False by (by rewrite Hm).
  destruct sid as [|c sid]; [done|].
  assert ((interrupt (setStore_interrupt (interrupt s + 1) s) >=? 2) = false)
    as -> by (rewrite Z.geb_leb; apply Z.leb_gt; unfold interrupt in *;
              simpl; lia).
  done.
Qed.

Lemma interruptSession_aborts s sid :
  interrupt_armed s → sessionID (props s) = Some sid → 2 <= interrupt s + 1 →
  interruptSession s
  = emit DialogClear
      (setStore_interrupt 0
         (setQueueGate paused
            (emit (SessionAbort sid)
               (setStore_interrupt (interrupt s + 1) s)))).
Proof.
  intros (Ha & Hf & Hm & Ht) Hsid Hi. unfold interruptSession.
  rewrite Ha, Hf, Hsid. rewrite Hsid in Ht. cbn [negb].
  rewrite decide_False by (by rewrite Hm).
  destruct sid as [|c sid]; [done|].
  assert ((interrupt (setStore_interrupt (interrupt s + 1) s) >=? 2) = true)
    as -> by (apply Z.geb_le; unfold interrupt in *; simpl; lia).
  done.
Qed.

Lemma effects_gate_closed s :
  queueGate (effects s) ≠ open →
  run (effects s) = run s ∧ queuedPrompts (effects s) = queuedPrompts s.
Proof.
  unfold effects. intros Hg.
  pose proof (cleanup_gate_frame s) as (Hq & _ & Hr & _).
  destruct (dispatchEffect_cases (gateEffect (cleanupEffect s)))
    as [E|(next & H)].
  - by rewrite E.
  - destruct H as (_ & _ & _ & _ & _ & _ & _ & _ & _ & _ & _ & Ho & _).
    done.
Qed.

Lemma step_interrupt_counts s s0 sid :
  reachable s0 → props s = props s0 → env s = env s0 → sig s = sig s0 →
  interrupt_armed s → sessionID (props s) = Some sid → interrupt s = 0 →
  step s EvInterrupt = emit DialogClear (setStore_interrupt 1 s).
Proof.
  intros Hr Hp He Hg Harm Hsid Hi. unfold step, handle.
  rewrite (interruptSession_counts s sid Harm Hsid) by lia.
  rewrite Hi. change (0 + 1) with 1. by apply (settled_frame s0).
Qed.

Lemma step_interruptTimeout s s0 :
  reachable s0 → props s = props s0 → env s = env s0 → sig s = sig s0 →
  step s EvInterruptTimeout = setStore_interrupt 0 s.
Proof.
  intros Hr Hp He Hg. unfold step, handle, interruptTimeout.
  by apply (settled_frame s0).
Qed.

Lemma step_interrupt_aborts s sid :
  interrupt_armed s → sessionID (props s) = Some sid → interrupt s = 1 →
  interrupt (step s EvInterrupt) = 0
  ∧ queueGate (step s EvInterrupt) = paused
  ∧ outputs (step s EvInterrupt)
    = outputs s ++ [SessionAbort sid; DialogClear].
Proof.
  intros Harm Hsid Hi.
  assert (queueGate (step s EvInterrupt) = paused) as Hg.
  { rewrite step_gate, gateEffect_gate. unfold handle.
    by rewrite (interruptSession_aborts s sid Harm Hsid) by lia. }
  split_and!; [|done|].
  - unfold interrupt, step.
    destruct (effects_frame (handle EvInterrupt s)) as (_ & _ & -> & _).
    unfold handle.
    by rewrite (interruptSession_aborts s sid Harm Hsid) by lia.
  - unfold step in *.
    destruct (effects_gate_closed (handle EvInterrupt s)) as [Hrun _];
      [by rewrite Hg|].
    unfold outputs. rewrite Hrun. unfold handle.
    rewrite (interruptSession_aborts s sid Harm Hsid) by lia.
    cbn. by rewrite <- !(assoc_L (++)).
Qed.

(** X7: from a reachable state in which the interrupt count is zero, one
    interrupt only counts; a second one sends one abort for the session,
    pauses the gate and starts the count over; when the timer of the first
    one fires in between, the second one only counts again. *)
Theorem interrupt_needs_two_presses (s : State) (sid : jsstring) :
  reachable s → interrupt_armed s → sessionID (props s) = Some sid →
  interrupt s = 0 →
  let s1 := step s EvInterrupt in
  let s2 := step s1 EvInterrupt in
  let s3 := step (step s1 EvInterruptTimeout) EvInterrupt in
  (interrupt s1 = 1 ∧ queueGate s1 = queueGate s
   ∧ outputs s1 = outputs s ++ [DialogClear])
  ∧ (interrupt s2 = 0 ∧ queueGate s2 = paused
     ∧ outputs s2 = outputs s ++ [DialogClear; SessionAbort sid; DialogClear])
  ∧ (interrupt s3 = 1 ∧ queueGate s3 = queueGate s
     ∧ outputs s3 = outputs s ++ [DialogClear; DialogClear]).
Proof.
  intros Hr Harm Hsid Hi. cbv zeta.
  rewrite (step_interrupt_counts s s sid) by done.
  set (s1 := emit DialogClear (setStore_interrupt 1 s)).
  assert (interrupt_armed s1) as Harm1 by exact Harm.
  destruct (step_interrupt_aborts s1 sid Harm1 Hsid eq_refl)
    as (Hi2 & Hg2 & Ho2).
  rewrite (step_interruptTimeout s1 s) by done.
  rewrite (step_interrupt_counts (setStore_interrupt 0 s1) s sid) by done.
  split_and!; try done.
  - rewrite Ho2. subst s1. unfold outputs. cbn.
    by rewrite <- !(assoc_L (++)).
  - subst s1. unfold outputs. cbn. by rewrite <- !(assoc_L (++)).
Qed.

Lemma interrupt_needs_two_presses_witness :
  let s1 := step queue3 EvInterrupt in
  let s2 := step s1 EvInterrupt in
  let s3 := step (step s1 EvInterruptTimeout) EvInterrupt in
  (interrupt s1 = 1 ∧ queueGate s1 = queueGate queue3
   ∧ outputs s1 = outputs queue3 ++ [DialogClear])
  ∧ (interrupt s2 = 0 ∧ queueGate s2 = paused
     ∧ outputs s2
       = outputs queue3 ++ [DialogClear; SessionAbort ses_1; DialogClear])
  ∧ (interrupt s3 = 1 ∧ queueGate s3 = queueGate queue3
     ∧ outputs s3 = outputs queue3 ++ [DialogClear; DialogClear]).
Proof.
  apply (interrupt_needs_two_presses queue3 ses_1).
  - exact queue3_reachable.
  - unfold interrupt_armed. split_and!; vm_compute; reflexivity.
  - vm_compute. reflexivity.
  - vm_compute. reflexivity.
Defined.

(** ** Extmarks and parts *)

Lemma stored_text_part_text c m :
  stored_text c m
  = c_extmarkToPartIndex c !! e_id m ≫= λ i, c_parts c !! i ≫= part_text.
Proof.
  unfold stored_text.
  destruct (c_extmarkToPartIndex c !! e_id m) as [i|]; [|done]. simpl.
  destruct (c_parts c !! i) as [[[|]| |]|]; done.
Qed.

Lemma part_text_move_source p a b :
  part_text (move_source p a b) = part_text p.
Proof. by destruct p as [[|]| |]. Qed.

Lemma foldl_resolve_step_ext c c' t l :
  (∀ m, m ∈ l → stored_text c' m = stored_text c m) →
  foldl (resolve_step c') t l = foldl (resolve_step c) t l.
Proof.
  revert t. induction l as [|m l IH]; intros t H; [done|]. simpl.
  rewrite !resolve_step_stored, (H m) by left.
  apply IH. intros m' Hm'. apply H. by right.
Qed.

Lemma omap_lookup_total {A B} (f : A → option B) (l : list A) (j : nat) :
  Forall (λ x, is_Some (f x)) l → omap f l !! j = l !! j ≫= f.
Proof.
  intros H. revert j. induction H as [|x l [y Hy] _ IH]; intros j; [done|].
  simpl. rewrite Hy. destruct j as [|j]; simpl; [done|]. apply IH.
Qed.

(** What the loop of [syncExtmarksWithPromptParts] keeps whatever the
    extmarks are: the length of the draft parts and their texts, and that
    the new map takes an id to a position of [picked] that holds what the
    old map took the id to. *)
Lemma sync_loop_inv old ps0 l :
  ∀ ps newMap picked,
    foldl (sync_step old) (ps0, ∅, []) l = (ps, newMap, picked) →
    length ps = length ps0
    ∧ (∀ i, part_text <$> ps !! i = part_text <$> ps0 !! i)
    ∧ (∀ k j, newMap !! k = Some j →
         ∃ i, old !! k = Some i ∧ picked !! j = Some i)
    ∧ (∀ m i, m ∈ l → old !! e_id m = Some i → is_Some (ps0 !! i) →
         is_Some (newMap !! e_id m))
    ∧ Forall (λ i, is_Some (ps0 !! i)) picked.
Proof.
  induction l as [|m l IH] using rev_ind; intros ps newMap picked E.
  - injection E as <- <- <-. split_and!; try done.
    intros m i Hm. by apply elem_of_nil in Hm.
  - rewrite foldl_snoc in E.
    destruct (foldl (sync_step old) (ps0, ∅, []) l) as [[ps1 map1] picked1].
    destruct (IH ps1 map1 picked1 eq_refl) as (Hlen & Htxt & Hmap & Hdom & Hpk).
    assert (∀ i, is_Some (ps1 !! i) ↔ is_Some (ps0 !! i)) as Hvalid.
    { intros i. rewrite !lookup_lt_is_Some. by rewrite Hlen. }
    unfold sync_step in E.
    destruct (old !! e_id m) as [i|] eqn:Ho.
    2:{ injection E as <- <- <-. split_and!; try done.
        intros m' i' [Hm'| ->%list_elem_of_singleton]%elem_of_app; [by eauto|].
        congruence. }
    destruct (ps1 !! i) as [p|] eqn:Hp.
    2:{ injection E as <- <- <-. split_and!; try done.
        intros m' i' [Hm'| ->%list_elem_of_singleton]%elem_of_app; [by eauto|].
        intros Ho' Hs. rewrite Ho in Ho'. injection Ho' as <-.
        apply Hvalid in Hs. rewrite Hp in Hs. by destruct Hs. }
    injection E as <- <- <-. split_and!.
    + by rewrite length_insert.
    + intros i'. destruct (decide (i = i')) as [<-|Hne].
      * rewrite list_lookup_insert_eq by (by eapply lookup_lt_Some).
        simpl. by rewrite part_text_move_source, <- Htxt, Hp.
      * by rewrite list_lookup_insert_ne.
    + intros k j. destruct (decide (e_id m = k)) as [<-|Hne].
      * rewrite lookup_insert_eq. intros [= <-]. exists i. split; [done|].
        by rewrite lookup_app_r, Nat.sub_diag.
      * rewrite lookup_insert_ne by done. intros Hk.
        destruct (Hmap k j Hk) as (i' & Hi' & Hj). exists i'.
        split; [done|]. by apply lookup_app_l_Some.
    + intros m' i' Hm' Ho' Hs.
      destruct (decide (e_id m = e_id m')) as [Eid|Hne].
      * rewrite <- Eid, lookup_insert_eq. by eexists.
      * rewrite lookup_insert_ne by done.
        apply elem_of_app in Hm' as [Hm'| ->%list_elem_of_singleton];
          [by eauto|done].
    + apply Forall_app. split; [done|]. constructor; [|done].
      apply Hvalid. by eexists.
Qed.

(** X8: [syncExtmarksWithPromptParts] does not change the text that
    [resolvePromptInput] resolves the composition to, whatever the extmarks
    and the map are: the parts it keeps keep their texts, and the parts it
    drops have no extmark that is mapped to them. *)
Theorem syncExtmarksWithPromptParts_keeps_text (s : State) :
  (resolvePromptInput (composition (syncExtmarksWithPromptParts s))).1
  = (resolvePromptInput (composition s)).1.
Proof.
  unfold syncExtmarksWithPromptParts.
  destruct (foldl (sync_step (st_extmarkToPartIndex (store s)))
              (prompt_parts s, ∅, []) (ta_extmarks (input s)))
    as [[ps newMap] picked] eqn:E.
  destruct (sync_loop_inv _ _ _ _ _ _ E) as (Hlen & Htxt & Hmap & Hdom & Hpk).
  unfold resolvePromptInput. cbn [fst].
  set (c' := composition _). set (c := composition s).
  assert (c_extmarks c' = c_extmarks c) as -> by done.
  assert (c_input c' = c_input c) as -> by done.
  apply foldl_resolve_step_ext. intros m Hm.
  rewrite sort_desc_perm in Hm.
  rewrite !stored_text_part_text.
  assert (c_extmarkToPartIndex c' = newMap) as -> by done.
  assert (c_parts c' = omap (λ i, ps !! i) picked) as -> by done.
  assert (c_extmarkToPartIndex c = st_extmarkToPartIndex (store s)) as ->
    by done.
  assert (c_parts c = prompt_parts s) as -> by done.
  assert (Forall (λ i, is_Some (ps !! i)) picked) as Hpk'.
  { eapply Forall_impl; [exact Hpk|]. intros i. simpl.
    rewrite !lookup_lt_is_Some. by rewrite Hlen. }
  destruct (newMap !! e_id m) as [j|] eqn:Hj; simpl.
  - destruct (Hmap _ _ Hj) as (i & -> & Hi). simpl.
    rewrite (omap_lookup_total _ _ _ Hpk'), Hi. simpl.
    specialize (Htxt i).
    destruct (ps !! i), (prompt_parts s !! i); simpl in *; congruence.
  - destruct (st_extmarkToPartIndex (store s) !! e_id m) as [i|] eqn:Ho;
      [|done]. simpl.
    destruct (prompt_parts s !! i) as [p|] eqn:Hp; [|done].
    destruct (Hdom m i Hm Ho ltac:(by eexists)) as [j' Hj']. congruence.
Qed.

Lemma NoDup_omap_inj {A B} (f : A → option B) (l : list A) x y b :
  NoDup (omap f l) → x ∈ l → y ∈ l → f x = Some b → f y = Some b → x = y.
Proof.
  induction l as [|z l IH]; [by intros _ ?%elem_of_nil|].
  cbn [omap list_omap]. intros Hnd Hx Hy Fx Fy.
  assert (∀ w, w ∈ l → f w = Some b → b ∈ omap f l) as Hin.
  { intros w Hw Fw. apply list_elem_of_omap. by exists w. }
  apply elem_of_cons in Hx as [->|Hx]; apply elem_of_cons in Hy as [->|Hy].
  - done.
  - rewrite Fx in Hnd. apply NoDup_cons in Hnd as [Hn _].
    destruct Hn. by apply (Hin y).
  - rewrite Fy in Hnd. apply NoDup_cons in Hnd as [Hn _].
    destruct Hn. by apply (Hin x).
  - apply IH; try done. destruct (f z); [|done].
    by apply NoDup_cons in Hnd as [_ ?].
Qed.

Lemma marks_wf_inj old marks m1 m2 i :
  marks_wf old marks → m1 ∈ marks → m2 ∈ marks →
  old !! e_id m1 = Some i → old !! e_id m2 = Some i → e_id m1 = e_id m2.
Proof.
  intros [_ Hnd] H1 H2 E1 E2. f_equal.
  by apply (NoDup_omap_inj (λ m, old !! e_id m) marks m1 m2 i).
Qed.

Lemma marks_wf_snoc old l m :
  marks_wf old (l ++ [m]) →
  marks_wf old l
  ∧ (∀ m', m' ∈ l → e_id m' ≠ e_id m)
  ∧ (∀ m' i, m' ∈ l → old !! e_id m' = Some i → old !! e_id m ≠ Some i).
Proof.
  intros Hwf. pose proof (λ m1 m2 i, marks_wf_inj old _ m1 m2 i Hwf) as Hinj.
  destruct Hwf as [Hnd Hnd']. rewrite fmap_app in Hnd.
  apply NoDup_app in Hnd as (Hnd & Hne & _).
  rewrite omap_app in Hnd'. apply NoDup_app in Hnd' as (Hnd' & _ & _).
  assert (∀ m', m' ∈ l → e_id m' ≠ e_id m) as Hid.
  { intros m' Hm' E. apply (Hne (e_id m')); [by apply list_elem_of_fmap_2|].
    rewrite E. simpl. left. }
  split_and!; [by split|done|].
  intros m' i Hm' Ho Ho'. apply (Hid m' Hm').
  apply (Hinj m' m i); [apply elem_of_app; by left| |done|done].
  apply elem_of_app. right. left.
Qed.

Lemma omap_ext_in {A B} (f g : A → option B) (l : list A) :
  (∀ x, x ∈ l → f x = g x) → omap f l = omap g l.
Proof.
  induction l as [|x l IH]; intros H; [done|]. cbn [omap list_omap].
  rewrite (H x) by left. rewrite IH; [done|]. intros y Hy. apply H. by right.
Qed.

(** The loop of [syncExtmarksWithPromptParts] when the extmarks have
    different ids and different parts: it moves the part of every extmark to
    the range of the extmark and picks it. *)
Lemma sync_loop_wf old ps0 l :
  marks_wf old l →
  ∀ ps newMap picked,
    foldl (sync_step old) (ps0, ∅, []) l = (ps, newMap, picked) →
    (∀ i, (∀ m, m ∈ l → old !! e_id m ≠ Some i) → ps !! i = ps0 !! i)
    ∧ (∀ i, i ∈ picked → ∃ m, m ∈ l ∧ old !! e_id m = Some i)
    ∧ omap (λ i, ps !! i) picked = omap (moved_part old ps0) l
    ∧ (∀ m, m ∈ l →
         newMap !! e_id m ≫= (λ j, picked !! j ≫= λ i, ps !! i)
         = moved_part old ps0 m)
    ∧ (∀ k j, newMap !! k = Some j → ∃ m, m ∈ l ∧ e_id m = k).
Proof.
  induction l as [|m l IH] using rev_ind; intros Hwf ps newMap picked E.
  - injection E as <- <- <-. split_and!; try done.
    + intros i Hi. by apply elem_of_nil in Hi.
    + intros m Hm. by apply elem_of_nil in Hm.
  - apply marks_wf_snoc in Hwf as (Hwf & Hid & Hinj).
    rewrite foldl_snoc in E.
    destruct (foldl (sync_step old) (ps0, ∅, []) l)
      as [[ps1 map1] picked1] eqn:E1.
    destruct (IH Hwf ps1 map1 picked1 eq_refl)
      as (Hsame & Hpk & Hparts & Hlook & Hkeys).
    destruct (sync_loop_inv old ps0 l ps1 map1 picked1 E1)
      as (Hlen & _ & Hmap & _ & Hvalid).
    assert (map1 !! e_id m = None) as Hfresh.
    { destruct (map1 !! e_id m) as [j|] eqn:Hj; [|done].
      destruct (Hkeys _ _ Hj) as (m' & Hm' & Em'). by destruct (Hid m' Hm'). }
    assert (∀ m', m' ∈ l → moved_part old ps0 m' = moved_part old ps0 m' )
      as _ by done.
    unfold sync_step in E.
    destruct (old !! e_id m) as [i|] eqn:Ho.
    2:{ injection E as <- <- <-.
        assert (moved_part old ps0 m = None) as Hmv
          by (unfold moved_part; by rewrite Ho).
        split_and!.
        - intros i Hi. apply Hsame. intros m' Hm'. apply Hi.
          apply elem_of_app. by left.
        - intros i Hi. destruct (Hpk i Hi) as (m' & Hm' & Ho').
          exists m'. split; [apply elem_of_app; by left|done].
        - by rewrite omap_app, Hparts; simpl; rewrite Hmv, app_nil_r.
        - intros m' [Hm'| ->%list_elem_of_singleton]%elem_of_app; [by auto|].
          by rewrite Hfresh, Hmv.
        - intros k j Hk. destruct (Hkeys k j Hk) as (m' & Hm' & Em').
          exists m'. split; [apply elem_of_app; by left|done]. }
    assert (ps1 !! i = ps0 !! i) as Hi0.
    { apply Hsame. intros m' Hm' Ho'. by apply (Hinj m' i Hm' Ho'). }
    destruct (ps1 !! i) as [p|] eqn:Hp.
    2:{ injection E as <- <- <-.
        assert (moved_part old ps0 m = None) as Hmv
          by (unfold moved_part; by rewrite Ho, <- Hi0).
        split_and!.
        - intros i' Hi'. apply Hsame. intros m' Hm'. apply Hi'.
          apply elem_of_app. by left.
        - intros i' Hi'. destruct (Hpk i' Hi') as (m' & Hm' & Ho').
          exists m'. split; [apply elem_of_app; by left|done].
        - by rewrite omap_app, Hparts; simpl; rewrite Hmv, app_nil_r.
        - intros m' [Hm'| ->%list_elem_of_singleton]%elem_of_app; [by auto|].
          by rewrite Hfresh, Hmv.
        - intros k j Hk. destruct (Hkeys k j Hk) as (m' & Hm' & Em').
          exists m'. split; [apply elem_of_app; by left|done]. }
    injection E as <- <- <-.
    assert (moved_part old ps0 m
            = Some (move_source p (e_start m) (e_end m))) as Hmv
      by (unfold moved_part; by rewrite Ho, <- Hi0).
    assert (i < length ps1)%nat as Hlt by (by eapply lookup_lt_Some).
    assert (∀ i', i' ∈ picked1 → i' ≠ i) as Hpk_ne.
    { intros i' Hi' ->. destruct (Hpk i Hi') as (m' & Hm' & Ho').
      by apply (Hinj m' i Hm' Ho'). }
    split_and!.
    + intros i' Hi'.
      assert (i ≠ i') as Hne.
      { intros <-. apply (Hi' m); [|done]. apply elem_of_app. right. left. }
      rewrite list_lookup_insert_ne by done. apply Hsame.
      intros m' Hm'. apply Hi'. apply elem_of_app. by left.
    + intros i' [Hi'| ->%list_elem_of_singleton]%elem_of_app.
      * destruct (Hpk i' Hi') as (m' & Hm' & Ho').
        exists m'. split; [apply elem_of_app; by left|done].
      * exists m. split; [|done]. apply elem_of_app. right. left.
    + rewrite !omap_app. simpl.
      rewrite list_lookup_insert_eq by done. rewrite Hmv. f_equal.
      rewrite <- Hparts. apply omap_ext_in. intros i' Hi'.
      rewrite list_lookup_insert_ne; [done|]. intros Eq.
      by apply (Hpk_ne i' Hi').
    + intros m' [Hm'| ->%list_elem_of_singleton]%elem_of_app.
      * rewrite lookup_insert_ne by (intros Eq; by apply (Hid m' Hm')).
        rewrite <- (Hlook m' Hm').
        destruct (map1 !! e_id m') as [j|] eqn:Hj; [|done]. simpl.
        destruct (Hmap _ _ Hj) as (i' & Hi' & Hpj).
        rewrite (lookup_app_l_Some _ _ _ _ Hpj), Hpj. simpl.
        rewrite list_lookup_insert_ne; [done|]. intros Eq.
        apply (Hpk_ne i'); [by eapply list_elem_of_lookup_2|done].
      * rewrite lookup_insert_eq. simpl.
        rewrite lookup_app_r, Nat.sub_diag by done. simpl.
        by rewrite list_lookup_insert_eq, Hmv.
    + intros k j. destruct (decide (e_id m = k)) as [<-|Hne].
      * intros _. exists m. split; [|done]. apply elem_of_app. right. left.
      * rewrite lookup_insert_ne by done. intros Hk.
        destruct (Hkeys k j Hk) as (m' & Hm' & Em').
        exists m'. split; [apply elem_of_app; by left|done].
Qed.

(** X9: when the extmarks have different ids and no two of them are mapped
    to the same part, [syncExtmarksWithPromptParts] leaves the parts that an
    extmark is mapped to, in the order of the extmarks and with the range of
    their extmark, and drops the others; the new map takes the id of an
    extmark to the place of its part, and has no other key. *)
Theorem syncExtmarksWithPromptParts_moves (s : State) :
  marks_wf (st_extmarkToPartIndex (store s)) (ta_extmarks (input s)) →
  let old := st_extmarkToPartIndex (store s) in
  let marks := ta_extmarks (input s) in
  let s' := syncExtmarksWithPromptParts s in
  prompt_parts s' = omap (moved_part old (prompt_parts s)) marks
  ∧ (∀ m, m ∈ marks →
       st_extmarkToPartIndex (store s') !! e_id m ≫= (λ j, prompt_parts s' !! j)
       = moved_part old (prompt_parts s) m)
  ∧ (∀ k j, st_extmarkToPartIndex (store s') !! k = Some j →
       (∃ m, m ∈ marks ∧ e_id m = k) ∧ is_Some (prompt_parts s' !! j))
  ∧ prompt_input s' = prompt_input s
  ∧ input s' = input s.
Proof.
  intros Hwf. cbv zeta. unfold syncExtmarksWithPromptParts.
  destruct (foldl (sync_step (st_extmarkToPartIndex (store s)))
              (prompt_parts s, ∅, []) (ta_extmarks (input s)))
    as [[ps newMap] picked] eqn:E.
  destruct (sync_loop_inv _ _ _ _ _ _ E) as (Hlen & _ & Hmap & _ & Hpk).
  destruct (sync_loop_wf _ _ _ Hwf _ _ _ E)
    as (_ & _ & Hparts & Hlook & Hkeys).
  assert (Forall (λ i, is_Some (ps !! i)) picked) as Hpk'.
  { eapply Forall_impl; [exact Hpk|]. intros i. simpl.
    rewrite !lookup_lt_is_Some. by rewrite Hlen. }
  assert (prompt_parts
            (setStore_prompt (prompt_input (setStore_extmarkToPartIndex newMap s))
               (omap (λ i, ps !! i) picked)
               (setStore_extmarkToPartIndex newMap s))
          = omap (λ i, ps !! i) picked) as -> by done.
  assert (st_extmarkToPartIndex (store
            (setStore_prompt (prompt_input (setStore_extmarkToPartIndex newMap s))
               (omap (λ i, ps !! i) picked)
               (setStore_extmarkToPartIndex newMap s)))
          = newMap) as -> by done.
  split_and!; try done.
  - intros m Hm. rewrite <- (Hlook m Hm).
    destruct (newMap !! e_id m) as [j|]; [|done]. simpl.
    apply (omap_lookup_total _ _ _ Hpk').
  - intros k j Hk. split; [by eauto|].
    destruct (Hmap k j Hk) as (i & _ & Hj).
    rewrite (omap_lookup_total _ _ _ Hpk'), Hj. simpl.
    rewrite Forall_forall in Hpk'. apply Hpk'.
    by eapply list_elem_of_lookup_2.
Qed.

Lemma syncExtmarksWithPromptParts_moves_witness :
  let s := typed_before_paste in
  let old := st_extmarkToPartIndex (store s) in
  let marks := ta_extmarks (input s) in
  let s' := syncExtmarksWithPromptParts s in
  prompt_parts s' = omap (moved_part old (prompt_parts s)) marks
  ∧ (∀ m, m ∈ marks →
       st_extmarkToPartIndex (store s') !! e_id m ≫= (λ j, prompt_parts s' !! j)
       = moved_part old (prompt_parts s) m)
  ∧ (∀ k j, st_extmarkToPartIndex (store s') !! k = Some j →
       (∃ m, m ∈ marks ∧ e_id m = k) ∧ is_Some (prompt_parts s' !! j))
  ∧ prompt_input s' = prompt_input s
  ∧ input s' = input s.
Proof.
  apply (syncExtmarksWithPromptParts_moves typed_before_paste).
  split; refine (bool_decide_unpack _ _); vm_compute; exact I.
Defined.

(** ** Restoring the extmarks of a prompt *)

Lemma restore_snoc l p s :
  restoreExtmarksFromParts (l ++ [p]) s
  = restore_part (restoreExtmarksFromParts l s) (length l, p).
Proof.
  unfold restoreExtmarksFromParts. rewrite imap_app, foldl_app. simpl.
  by rewrite Nat.add_0_r.
Qed.

Lemma has_virtual_source p :
  has_virtual p = true ↔
  ∃ a b c v, part_source p = Some {| src_start := a; src_end := b;
                                     src_value := c :: v |}.
Proof.
  unfold has_virtual. destruct (part_source p) as [[a b [|c v]]|]; split;
    try done; try (by intros (? & ? & ? & ? & ?)).
  intros _. by exists a, b, c, v.
Qed.

Lemma move_source_same p a b v :
  part_source p = Some {| src_start := a; src_end := b; src_value := v |} →
  move_source p a b = p.
Proof. destruct p; simpl; by intros ->. Qed.

(** What [restoreExtmarksFromParts] builds: extmarks with consecutive new
    ids, one for every part with a placeholder, in the order of the parts
    and with the range of the part; the map takes the id of each extmark to
    the index of its part. *)
Lemma restore_inv s l :
  let s1 := restoreExtmarksFromParts l s in
  let marks := ta_extmarks (input s1) in
  let map := st_extmarkToPartIndex (store s1) in
  ta_nextId (input s1) = ta_nextId (input s) + Z.of_nat (length marks)
  ∧ e_id <$> marks = seqZ (ta_nextId (input s)) (Z.of_nat (length marks))
  ∧ (∀ k i, map !! k = Some i →
       (i < length l)%nat ∧ k < ta_nextId (input s1))
  ∧ NoDup (omap (λ m, map !! e_id m) marks)
  ∧ Forall (λ i, (i < length l)%nat) (omap (λ m, map !! e_id m) marks)
  ∧ (∀ rest, omap (moved_part map (l ++ rest)) marks
             = filter (λ p, has_virtual p = true) l)
  ∧ (∀ m, m ∈ marks →
       ∃ i p src, map !! e_id m = Some i ∧ l !! i = Some p
                  ∧ part_source p = Some src ∧ src_value src ≠ []
                  ∧ e_start m = src_start src ∧ e_end m = src_end src).
Proof.
  induction l as [|p l IH] using rev_ind.
  - cbv zeta. unfold restoreExtmarksFromParts. simpl.
    split_and!; try done.
    + lia.
    + constructor.
    + intros m Hm. by apply elem_of_nil in Hm.
  - cbv zeta in *. rewrite restore_snoc.
    set (s1 := restoreExtmarksFromParts l s) in *.
    destruct IH as (Hn & Hids & Hmap & Hnd & Hlt & Hmv & Hsrc).
    unfold restore_part. cbn [fst snd].
    destruct (has_virtual p) eqn:Hv.
    2:{ assert (match part_source p with
                | Some {| src_start := start; src_end := stop;
                          src_value := _ :: _ |} =>
                    setStore_extmarkToPartIndex
                      (<[ta_nextId (input s1) := length l]>
                         (st_extmarkToPartIndex
                            (store (extmarks_create start stop s1))))
                      (extmarks_create start stop s1)
                | _ => s1
                end = s1) as ->.
        { unfold has_virtual in Hv.
          by destruct (part_source p) as [[a b [|c v]]|]. }
        rewrite length_app. simpl. split_and!; try done.
        - intros k i Hk. destruct (Hmap k i Hk). split; [lia|done].
        - eapply Forall_impl; [exact Hlt|]. simpl. lia.
        - intros rest. rewrite <- (assoc_L (++)), Hmv, filter_app.
          rewrite filter_cons_False by (by rewrite Hv). simpl.
          by rewrite app_nil_r.
        - intros m Hm. destruct (Hsrc m Hm) as (i & q & src & ? & Hq & ?).
          exists i, q, src. split_and!; try done; try tauto.
          by apply lookup_app_l_Some. }
    apply has_virtual_source in Hv as (a & b & c & v & Hp). rewrite Hp.
    set (id := ta_nextId (input s1)) in *.
    set (marks := ta_extmarks (input s1)) in *.
    set (map := st_extmarkToPartIndex (store s1)) in *.
    set (m0 := {| e_id := id; e_start := a; e_end := b |}).
    assert (ta_extmarks (input (setStore_extmarkToPartIndex
              (<[id := length l]>
                 (st_extmarkToPartIndex (store (extmarks_create a b s1))))
              (extmarks_create a b s1))) = marks ++ [m0]) as -> by done.
    assert (st_extmarkToPartIndex (store (setStore_extmarkToPartIndex
              (<[id := length l]>
                 (st_extmarkToPartIndex (store (extmarks_create a b s1))))
              (extmarks_create a b s1))) = <[id := length l]> map) as ->
      by done.
    assert (ta_nextId (input (setStore_extmarkToPartIndex
              (<[id := length l]>
                 (st_extmarkToPartIndex (store (extmarks_create a b s1))))
              (extmarks_create a b s1))) = id + 1) as -> by done.
    assert (map !! id = None) as Hfresh.
    { destruct (map !! id) as [i|] eqn:E; [|done].
      destruct (Hmap id i E). lia. }
    assert (∀ m, m ∈ marks → e_id m ≠ id) as Hne.
    { intros m Hm E.
      assert (e_id m ∈ e_id <$> marks) as Hin by (by apply list_elem_of_fmap_2).
      rewrite Hids in Hin. apply elem_of_seqZ in Hin. lia. }
    assert (∀ (f : option nat → option Part),
              omap (λ m, f (<[id := length l]> map !! e_id m)) marks
              = omap (λ m, f (map !! e_id m)) marks) as Hext.
    { intros f. apply omap_ext_in. intros m Hm.
      by rewrite lookup_insert_ne by (intros E; by apply (Hne m)). }
    assert (omap (λ m, <[id := length l]> map !! e_id m) marks
            = omap (λ m, map !! e_id m) marks) as Hext'.
    { apply omap_ext_in. intros m Hm.
      by rewrite lookup_insert_ne by (intros E; by apply (Hne m)). }
    rewrite !length_app. simpl length.
    split_and!.
    + lia.
    + rewrite fmap_app, Hids. simpl.
      replace (Z.of_nat (length marks + 1)) with (Z.of_nat (S (length marks)))
        by lia.
      rewrite seqZ_S. f_equal. f_equal. unfold id. lia.
    + intros k i. destruct (decide (id = k)) as [<-|Hk].
      * rewrite lookup_insert_eq. intros [= <-]. split; lia.
      * rewrite lookup_insert_ne by done. intros E.
        destruct (Hmap k i E). split; lia.
    + rewrite omap_app, Hext'. simpl. rewrite lookup_insert_eq.
      apply NoDup_app. split_and!; [done| |apply NoDup_singleton].
      intros i Hi ->%list_elem_of_singleton.
      rewrite Forall_forall in Hlt. specialize (Hlt _ Hi). lia.
    + rewrite omap_app, Hext'. simpl. rewrite lookup_insert_eq.
      apply Forall_app. split.
      * eapply Forall_impl; [exact Hlt|]. simpl. lia.
      * constructor; [lia|constructor].
    + intros rest. rewrite omap_app, filter_app.
      rewrite filter_cons_True
        by (apply has_virtual_source; by exists a, b, c, v).
      f_equal.
      * rewrite <- (Hmv (p :: rest)), <- (assoc_L (++)). simpl.
        unfold moved_part. apply omap_ext_in. intros m Hm.
        by rewrite lookup_insert_ne by (intros E; by apply (Hne m)).
      * simpl. unfold moved_part. simpl. rewrite lookup_insert_eq.
        rewrite <- (assoc_L (++)). simpl.
        rewrite list_lookup_middle by done. simpl.
        by rewrite (move_source_same p a b (c :: v)).
    + intros m [Hm| ->%list_elem_of_singleton]%elem_of_app.
      * destruct (Hsrc m Hm) as (i & q & src & Hi & Hq & Hrest).
        exists i, q, src. rewrite lookup_insert_ne by (intros E; by apply (Hne m)).
        split_and!; try done; try tauto. by apply lookup_app_l_Some.
      * exists (length l), p, {| src_start := a; src_end := b;
                                 src_value := c :: v |}.
        simpl. rewrite lookup_insert_eq.
        split_and!; try done. by rewrite list_lookup_middle.
Qed.

Lemma omap_length_total {A B} (f : A → option B) (l : list A) :
  (∀ x, x ∈ l → is_Some (f x)) → length (omap f l) = length l.
Proof.
  induction l as [|x l IH]; intros H; [done|]. cbn [omap list_omap].
  destruct (H x) as [y ->]; [left|]. simpl. f_equal. apply IH.
  intros z Hz. apply H. by right.
Qed.

(** X10: [restoreExtmarksFromParts], called on the parts it has just stored,
    creates one extmark for every part that has a placeholder, with the
    range of the part and mapped to it; the extmarks have different ids and
    different parts, and a following [syncExtmarksWithPromptParts] keeps
    exactly the parts that have a placeholder, unchanged and in their order,
    and drops the others. *)
Theorem restoreExtmarksFromParts_round_trip (s : State) (t : jsstring)
    (ps : list Part) :
  let s1 := restoreExtmarksFromParts ps (setStore_prompt t ps s) in
  let marks := ta_extmarks (input s1) in
  let map := st_extmarkToPartIndex (store s1) in
  marks_wf map marks
  ∧ length marks = length (filter (λ p, has_virtual p = true) ps)
  ∧ (∀ m, m ∈ marks →
       ∃ i p src, map !! e_id m = Some i ∧ ps !! i = Some p
                  ∧ part_source p = Some src ∧ src_value src ≠ []
                  ∧ e_start m = src_start src ∧ e_end m = src_end src)
  ∧ prompt_parts (syncExtmarksWithPromptParts s1)
    = filter (λ p, has_virtual p = true) ps.
Proof.
  cbv zeta.
  destruct (restore_inv (setStore_prompt t ps s) ps)
    as (_ & Hids & _ & Hnd & _ & Hmv & Hsrc).
  set (s1 := restoreExtmarksFromParts ps (setStore_prompt t ps s)) in *.
  assert (marks_wf (st_extmarkToPartIndex (store s1)) (ta_extmarks (input s1)))
    as Hwf.
  { split; [|done]. rewrite Hids. apply NoDup_seqZ. }
  assert (prompt_parts s1 = ps) as Hps.
  { unfold prompt_parts, s1.
    by destruct (restore_store ps (setStore_prompt t ps s)) as (_ & -> & _). }
  specialize (Hmv []). rewrite app_nil_r in Hmv.
  split_and!; [done| |done|].
  - rewrite <- Hmv. symmetry. apply omap_length_total.
    intros m Hm. destruct (Hsrc m Hm) as (i & p & src & Hi & Hp & _).
    unfold moved_part. rewrite Hi, Hp. by eexists.
  - unfold syncExtmarksWithPromptParts.
    destruct (foldl (sync_step (st_extmarkToPartIndex (store s1)))
                (prompt_parts s1, ∅, []) (ta_extmarks (input s1)))
      as [[ps' newMap] picked] eqn:E.
    destruct (sync_loop_wf _ _ _ Hwf _ _ _ E) as (_ & _ & Hparts & _).
    assert (prompt_parts
              (setStore_prompt
                 (prompt_input (setStore_extmarkToPartIndex newMap s1))
                 (omap (λ i, ps' !! i) picked)
                 (setStore_extmarkToPartIndex newMap s1))
            = omap (λ i, ps' !! i) picked) as -> by done.
    by rewrite Hparts, Hps.
Qed.

(** ** Slash commands *)

Lemma split_first_spec c s :
  (c ∉ (split_first c s).1)
  ∧ s = (split_first c s).1
        ++ match (split_first c s).2 with Some r => c :: r | None => [] end.
Proof.
  induction s as [|x s [IH1 IH2]]; simpl.
  - split; [apply not_elem_of_nil|done].
  - destruct (N.eqb_spec x c) as [->|Hne]; simpl.
    + split; [apply not_elem_of_nil|done].
    + destruct (split_first c s) as [a b]. simpl in *. split.
      * apply not_elem_of_cons. split; [congruence|done].
      * by rewrite <- IH2.
Qed.

Lemma startsWith_cons s c :
  startsWith s [c] = true → ∃ r, s = c :: r.
Proof.
  destruct s as [|b s]; [done|]. simpl.
  intros [->%N.eqb_eq _]%andb_true_iff. by eexists.
Qed.

(** X11: a prompt that starts with a slash and whose first word is the name
    of a command is sent as that command: the name has no space and no line
    break in it, and the slash, the name and the arguments make up the
    prompt again, with one space between name and arguments when the first
    line has one, and up to a line break at the end of a prompt that has
    nothing after its first line; of the parts, the files are sent. *)
Theorem slash_command_split (sid inputText : jsstring) (ps : list Part)
    (m : Model) (s : State) :
  mode s = normal →
  startsWith inputText (lit "/") = true →
  slice_from (split_first 32 (split_first 10 inputText).1).1 1
    ∈ command_names (env s) →
  ∃ name arguments sep tail,
    outputs (submit_send sid inputText ps m s)
    = outputs s ++
        [SessionCommand sid name arguments (agent_current (env s))
           (providerID m ++ lit "/" ++ modelID m) (variant_current (env s))
           (filter (λ x, is_file x = true) ps);
         HistoryAppend (prompt_input s) (prompt_parts s) normal;
         OnSubmit]
        ++ (if truthy (sessionID (props s)) then [] else [NavigateLater sid])
    ∧ name ∈ command_names (env s)
    ∧ (32%N ∉ name) ∧ (10%N ∉ name)
    ∧ (sep = [] ∨ sep = [32%N]) ∧ (tail = [] ∨ tail = [10%N])
    ∧ inputText = lit "/" ++ name ++ sep ++ arguments ++ tail.
Proof.
  intros Hm Hsl Hcmd.
  destruct (split_first_spec 10 inputText) as [Hnl Hline].
  destruct (split_first 10 inputText) as [firstLine rest] eqn:E10.
  cbn [fst snd] in *.
  destruct (split_first_spec 32 firstLine) as [Hsp Hword].
  destruct (split_first 32 firstLine) as [command args] eqn:E32.
  cbn [fst snd] in *.
  change (lit "/") with [47%N] in *.
  apply startsWith_cons in Hsl as (r & Hr).
  assert (∃ name, command = 47%N :: name) as (name & ->).
  { destruct command as [|c name].
    - exfalso. rewrite Hline, Hword in Hr. simpl in Hr.
      destruct args; destruct rest; try done; simpl in Hr; congruence.
    - exists name. rewrite Hline, Hword in Hr. simpl in Hr. congruence. }
  assert (slice_from (47%N :: name) 1 = name) as Hname.
  { rewrite slice_from_suffix by (simpl length; lia). done. }
  rewrite Hname in Hcmd.
  exists name,
    (default [] args ++ match default [] rest with
                        | [] => []
                        | _ => 10%N :: default [] rest
                        end),
    (match args with Some _ => [32%N] | None => [] end),
    (match rest with Some [] => [10%N] | _ => [] end).
  split_and!.
  - unfold submit_send. cbv zeta. change (lit "/") with [47%N].
    rewrite E10. cbn [fst snd]. rewrite E32. cbn [fst snd].
    rewrite Hname.
    set (s0 := if decide (queueGate s = paused)
               then setQueueGate wait_busy s else s).
    assert (env s0 = env s ∧ props s0 = props s ∧ store s0 = store s
            ∧ input s0 = input s ∧ run s0 = run s)
      as (He0 & Hp0 & Hst0 & Hin0 & Hr0)
      by (subst s0; destruct (decide _); done).
    assert (mode s0 = normal) as Hm0 by (unfold mode; by rewrite Hst0).
    clearbody s0.
    rewrite (decide_False (P := mode s0 = shell)) by (by rewrite Hm0).
    assert (startsWith inputText [47%N] = true) as ->
      by (rewrite Hr; simpl; by destruct r).
    rewrite bool_decide_eq_true_2 by (by rewrite He0).
    unfold outputs, prompt_input, prompt_parts. cbn.
    rewrite Hp0, Hst0, He0, Hm0.
    destruct (sessionID (props s)) as [[|]|]; cbn;
      rewrite Hr0; by rewrite <- ?(assoc_L (++)).
  - done.
  - intros H. apply Hsp. by right.
  - intros H. apply Hnl. rewrite Hword. right. apply elem_of_app. by left.
  - destruct args; auto.
  - destruct rest as [[|]|]; auto.
  - rewrite Hline at 1. rewrite Hword. simpl.
    f_equal. rewrite <- !(assoc_L (++)). f_equal.
    destruct args as [a|]; destruct rest as [[|c0 r0]|]; simpl;
      rewrite ?app_nil_r; try done; by rewrite <- ?(assoc_L (++)).
Qed.

Lemma slash_command_split_witness :
  ∃ name arguments sep tail,
    outputs (submit_send ses_1 slash_init [] gpt5 idle_prompt)
    = outputs idle_prompt ++
        [SessionCommand ses_1 name arguments
           (agent_current (env idle_prompt))
           (providerID gpt5 ++ lit "/" ++ modelID gpt5)
           (variant_current (env idle_prompt))
           (filter (λ x, is_file x = true) []);
         HistoryAppend (prompt_input idle_prompt) (prompt_parts idle_prompt)
           normal;
         OnSubmit]
        ++ (if truthy (sessionID (props idle_prompt)) then []
            else [NavigateLater ses_1])
    ∧ name ∈ command_names (env idle_prompt)
    ∧ (32%N ∉ name) ∧ (10%N ∉ name)
    ∧ (sep = [] ∨ sep = [32%N]) ∧ (tail = [] ∨ tail = [10%N])
    ∧ slash_init = lit "/" ++ name ++ sep ++ arguments ++ tail.
Proof.
  apply (slash_command_split ses_1 slash_init [] gpt5 idle_prompt).
  - vm_compute. reflexivity.
  - vm_compute. reflexivity.
  - refine (bool_decide_unpack _ _). vm_compute. exact I.
Defined.

(** ** Pasting: line endings *)

Lemma replace_crlf_cons c s :
  replace_crlf (c :: s)
  = match s with
    | d :: r => if ((c =? 13) && (d =? 10))%N then 10%N :: replace_crlf r
                else c :: replace_crlf s
    | [] => [c]
    end.
Proof. done. Qed.

(** Induction that steps over one or two code units. *)
Lemma list_ind2 {A} (P : list A → Prop) :
  P [] → (∀ x, P [x]) → (∀ x y l, P l → P (y :: l) → P (x :: y :: l)) →
  ∀ l, P l.
Proof.
  intros H0 H1 H2.
  assert (∀ l, P l ∧ ∀ x, P (x :: l)) as H; [|intros l; apply H].
  induction l as [|y l [IH1 IH2]]; [by split|].
  split; [apply IH2|]. intros x. by apply H2.
Qed.

Lemma replace_crlf_no_cr s : (13%N ∉ s) → replace_crlf s = s.
Proof.
  induction s as [| x | x y l IH1 IH2] using list_ind2; try done.
  intros Hn. rewrite replace_crlf_cons.
  apply not_elem_of_cons in Hn as [Hx Hn].
  destruct (N.eqb_spec x 13) as [->|_]; [done|]. cbn [andb].
  by rewrite IH2.
Qed.

Lemma replace_crlf_length s : (length (replace_crlf s) ≤ length s)%nat.
Proof.
  induction s as [| x | x y l IH1 IH2] using list_ind2; try done.
  rewrite replace_crlf_cons.
  destruct ((x =? 13) && (y =? 10))%N; simpl in *; lia.
Qed.

Lemma replace_crlf_app a b :
  replace_crlf (a ++ 13%N :: 10%N :: b)
  = replace_crlf a ++ 10%N :: replace_crlf b.
Proof.
  induction a as [| x | x y l IH1 IH2] using list_ind2.
  - done.
  - simpl. by rewrite andb_false_r.
  - change ((x :: y :: l) ++ 13%N :: 10%N :: b)
      with (x :: y :: (l ++ 13%N :: 10%N :: b)).
    rewrite (replace_crlf_cons x (y :: (l ++ 13%N :: 10%N :: b))),
      (replace_crlf_cons x (y :: l)).
    destruct ((x =? 13) && (y =? 10))%N.
    + by rewrite IH1.
    + change (y :: (l ++ 13%N :: 10%N :: b))
        with ((y :: l) ++ 13%N :: 10%N :: b).
      by rewrite IH2.
Qed.

Lemma replace_cr_no_cr s : 13%N ∉ replace_cr s.
Proof.
  unfold replace_cr. intros (c & Hc & _)%list_elem_of_fmap.
  by destruct (N.eqb_spec c 13).
Qed.

Lemma replace_cr_id s : (13%N ∉ s) → replace_cr s = s.
Proof.
  unfold replace_cr. induction s as [|c s IH]; [done|].
  intros [Hc Hs]%not_elem_of_cons. rewrite fmap_cons, IH by done.
  by destruct (N.eqb_spec c 13).
Qed.

(** X12: the pasted text has no carriage return after its line endings are
    normalized, and no more code units than before; a text without a
    carriage return is left as it is, so that normalizing twice is
    normalizing once; and a CRLF gives one line feed between the normalized
    texts before and after it, and counts as one line break. *)
Theorem normalizeLineEndings_no_carriage_return (text : jsstring) :
  (13%N ∉ normalizeLineEndings text)
  ∧ (length (normalizeLineEndings text) ≤ length text)%nat
  ∧ ((13%N ∉ text) → normalizeLineEndings text = text)
  ∧ normalizeLineEndings (normalizeLineEndings text)
    = normalizeLineEndings text
  ∧ (∀ a b, text = a ++ 13%N :: 10%N :: b →
       normalizeLineEndings text
       = normalizeLineEndings a ++ 10%N :: normalizeLineEndings b
       ∧ lineCount (normalizeLineEndings text)
         = (lineCount (normalizeLineEndings a)
            + lineCount (normalizeLineEndings b))%nat).
Proof.
  assert (∀ t, (13%N ∉ t) → normalizeLineEndings t = t) as Hid.
  { intros t Ht. unfold normalizeLineEndings.
    by rewrite (replace_crlf_no_cr t Ht), replace_cr_id. }
  split_and!.
  - apply replace_cr_no_cr.
  - unfold normalizeLineEndings, replace_cr. rewrite length_fmap.
    apply replace_crlf_length.
  - apply Hid.
  - apply Hid, replace_cr_no_cr.
  - intros a b ->.
    assert (normalizeLineEndings (a ++ 13%N :: 10%N :: b)
            = normalizeLineEndings a ++ 10%N :: normalizeLineEndings b) as E.
    { unfold normalizeLineEndings, replace_cr.
      by rewrite replace_crlf_app, fmap_app, fmap_cons. }
    split; [done|]. rewrite E. unfold lineCount.
    rewrite filter_app, filter_cons_True by done.
    rewrite length_app. simpl. lia.
Qed.

Lemma normalizeLineEndings_no_carriage_return_witness :
  normalizeLineEndings crlf_text
  = normalizeLineEndings (lit "one") ++ 10%N :: normalizeLineEndings (lit "two")
  ∧ lineCount (normalizeLineEndings crlf_text)
    = (lineCount (normalizeLineEndings (lit "one"))
       + lineCount (normalizeLineEndings (lit "two")))%nat.
Proof.
  destruct (normalizeLineEndings_no_carriage_return crlf_text)
    as (_ & _ & _ & _ & H).
  apply (H (lit "one") (lit "two")). reflexivity.
Defined.

(** ** The retry message *)

(** X13: the retry message under the input is never longer than 83 code
    units; a message of more than 80 code units that is not the quota
    message is cut to its first 80 code units and three dots, but only a
    message of more than 120 code units gets the hint and the alert that
    show it in full: from 81 to 120 code units the message is cut and a
    click shows nothing. *)
Theorem retryMessage_cut (m : jsstring) :
  (length (retryMessage m) ≤ 83)%nat
  ∧ (includes m (lit "exceeded your current quota") && includes m (lit "gemini")
     = false →
     ((length m ≤ 80)%nat → retryMessage m = m)
     ∧ ((80 < length m)%nat → retryMessage m = take 80 m ++ lit "...")
     ∧ ((80 < length m ≤ 120)%nat →
          retryMessage m = take 80 m ++ lit "..."
          ∧ handleMessageClick m = None ∧ truncatedHint m = []))
  ∧ (handleMessageClick m = Some (lit "Retry Error", m) ↔ (120 < length m)%nat).
Proof.
  assert ((80 < length m)%nat →
          slice m 0 80 ++ lit "..." = take 80 m ++ lit "...") as Hcut.
  { intros Hl. rewrite slice_prefix by lia. done. }
  split_and!.
  - unfold retryMessage. destruct (_ && _); [vm_compute; lia|].
    destruct (Z.gtb_spec (Z.of_nat (length m)) 80) as [Hl|Hl]; [|lia].
    rewrite Hcut by lia. rewrite length_app, length_take.
    change (length (lit "...")) with 3%nat. lia.
  - intros Hq. unfold retryMessage, handleMessageClick, truncatedHint,
      isTruncated. rewrite Hq. split_and!.
    + intros Hl. destruct (Z.gtb_spec (Z.of_nat (length m)) 80); [lia|done].
    + intros Hl. destruct (Z.gtb_spec (Z.of_nat (length m)) 80); [|lia].
      by apply Hcut.
    + intros Hl. destruct (Z.gtb_spec (Z.of_nat (length m)) 80); [|lia].
      destruct (Z.gtb_spec (Z.of_nat (length m)) 120); [lia|].
      split; [|done]. apply Hcut. lia.
  - unfold handleMessageClick, isTruncated.
    destruct (Z.gtb_spec (Z.of_nat (length m)) 120); split; try done; lia.
Qed.

Lemma retryMessage_cut_witness :
  retryMessage text81 = take 80 text81 ++ lit "..."
  ∧ handleMessageClick text81 = None ∧ truncatedHint text81 = [].
Proof.
  destruct (retryMessage_cut text81) as (_ & H & _).
  destruct H as (_ & _ & H); [vm_compute; reflexivity|].
  apply H. unfold text81. rewrite length_replicate. lia.
Defined.

(** ** Coming back from the external editor *)

Lemma startsWith_app s p : startsWith s p = true ↔ ∃ r, s = p ++ r.
Proof.
  revert s. induction p as [|a p IH]; intros s.
  - split; [intros _; by exists s|]. intros _. by destruct s.
  - destruct s as [|b s]; simpl.
    + split; [done|]. by intros (r & ?).
    + rewrite andb_true_iff, IH, N.eqb_eq. split.
      * intros (-> & r & ->). by exists r.
      * intros (r & [= -> ->]). split; [done|]. by exists r.
Qed.

Lemma indexOf_nil sub :
  indexOf [] sub = if startsWith [] sub then Some 0%nat else None.
Proof. done. Qed.

Lemma indexOf_cons c s sub :
  indexOf (c :: s) sub
  = if startsWith (c :: s) sub then Some 0%nat else S <$> indexOf s sub.
Proof. done. Qed.

Lemma indexOf_Some s sub i :
  indexOf s sub = Some i →
  take (length sub) (drop i s) = sub
  ∧ (∀ j, (j < i)%nat → startsWith (drop j s) sub = false).
Proof.
  revert i. induction s as [|c s IH]; intros i.
  - rewrite indexOf_nil. destruct (startsWith [] sub) eqn:E; [|done].
    intros [= <-]. apply startsWith_app in E as (r & E).
    split; [|intros j Hj; lia]. by destruct sub.
  - rewrite indexOf_cons. destruct (startsWith (c :: s) sub) eqn:E.
    + intros [= <-]. apply startsWith_app in E as (r & ->).
      split; [|intros j Hj; lia].
      rewrite drop_0. by rewrite take_app_length.
    + destruct (indexOf s sub) as [k|]; [|done]. simpl. intros [= <-].
      destruct (IH k eq_refl) as [Ht Hj]. split; [done|].
      intros [|j] Hlt; [done|]. simpl. apply Hj. lia.
Qed.

(** What [relocate] returns for a file or agent part: the part itself when
    it has no placeholder, and otherwise the part at the first place where
    its placeholder is in the content. *)
Lemma relocate_spec content p0 p :
  is_text p0 = false → relocate content p0 = Some p →
  virtualText p = virtualText p0
  ∧ ∀ src, part_source p = Some src → src_value src ≠ [] →
      src_value src = virtualText p0
      ∧ ∃ n, indexOf content (src_value src) = Some n
             ∧ src_start src = Z.of_nat n
             ∧ src_end src = Z.of_nat n + Z.of_nat (length (src_value src)).
Proof.
  intros Hnt. unfold relocate.
  destruct (virtualText p0) as [|c v] eqn:Hv.
  - intros [= <-]. split; [done|]. intros src Hsrc Hne. exfalso.
    destruct p0 as [| ? ? ? [src0|] | ? [src0|]]; simpl in *; try done;
      congruence.
  - destruct (indexOf content (c :: v)) as [n|] eqn:Hn; [|done].
    intros [= <-].
    destruct p0 as [| ? ? ? [src0|] | ? [src0|]]; simpl in *; try done.
    + split; [done|]. intros src [= <-] _. simpl. split; [done|].
      exists n. rewrite Hv. by split_and!.
    + split; [done|]. intros src [= <-] _. simpl. split; [done|].
      exists n. rewrite Hv. by split_and!.
Qed.

Lemma segment_take_drop (raw : jsstring) (n k : nat) :
  segment raw (Z.of_nat n) (Z.of_nat n + Z.of_nat k) = take k (drop n raw).
Proof.
  unfold segment. rewrite Nat2Z.id.
  replace (Z.to_nat (Z.of_nat n + Z.of_nat k) - n)%nat with k by lia. done.
Qed.

(** X14: when the external editor returns a text, the prompt is that text
    with the file and agent parts whose placeholder the text still has, in
    their order, each at the first place where its placeholder is in the
    text; every extmark then covers the placeholder of its part in the
    text; and parts with the same placeholder are all put at the same
    place. *)
Theorem editorReturned_relocates (nonTextParts : list Part)
    (content : jsstring) (s : State) :
  content ≠ [] → Forall (λ p, is_text p = false) nonTextParts →
  let s' := editorReturned nonTextParts content s in
  prompt_input s' = content
  ∧ ta_plainText (input s') = content
  ∧ prompt_parts s' = omap (relocate content) nonTextParts
  ∧ (∀ m, m ∈ ta_extmarks (input s') →
       ∃ i p src,
         st_extmarkToPartIndex (store s') !! e_id m = Some i
         ∧ prompt_parts s' !! i = Some p
         ∧ part_source p = Some src
         ∧ e_start m = src_start src ∧ e_end m = src_end src
         ∧ segment content (e_start m) (e_end m) = src_value src
         ∧ indexOf content (src_value src) = Some (Z.to_nat (e_start m)))
  ∧ (∀ p q src1 src2,
       p ∈ prompt_parts s' → q ∈ prompt_parts s' →
       part_source p = Some src1 → part_source q = Some src2 →
       src_value src1 = src_value src2 → src_value src1 ≠ [] →
       src_start src1 = src_start src2 ∧ src_end src1 = src_end src2).
Proof.
  intros Hne Hnt. cbv zeta. unfold editorReturned.
  destruct content as [|c0 content0] eqn:Hc; [done|]. rewrite <- Hc in *.
  set (updated := omap (relocate content) nonTextParts).
  set (s0 := setStore_prompt content updated (input_setText content s)).
  destruct (restore_store updated s0) as (Hi & Hp & _ & _ & Ht).
  destruct (restore_inv s0 updated) as (_ & _ & _ & _ & _ & _ & Hsrc).
  assert (prompt_input (restoreExtmarksFromParts updated s0) = content)
    as Hin by (unfold prompt_input; by rewrite Hi).
  assert (prompt_parts (restoreExtmarksFromParts updated s0) = updated)
    as Hps by (unfold prompt_parts; by rewrite Hp).
  assert (∀ p, p ∈ updated →
            ∀ src, part_source p = Some src → src_value src ≠ [] →
              ∃ n, indexOf content (src_value src) = Some n
                   ∧ src_start src = Z.of_nat n
                   ∧ src_end src
                     = Z.of_nat n + Z.of_nat (length (src_value src)))
    as Hrel.
  { intros p (p0 & Hp0 & Hr)%list_elem_of_omap src Hs Hv.
    rewrite Forall_forall in Hnt.
    destruct (relocate_spec content p0 p (Hnt p0 Hp0) Hr) as [_ H].
    by destruct (H src Hs Hv) as [_ ?]. }
  split_and!; [done|by rewrite Ht|done| |].
  - intros m Hm. destruct (Hsrc m Hm) as (i & p & src & Hmi & Hpi & Hs & Hv & Hst & Hen).
    exists i, p, src. rewrite Hps.
    destruct (Hrel p (list_elem_of_lookup_2 _ _ _ Hpi) src Hs Hv)
      as (n & Hn & Hsn & Hsen).
    split_and!; try done.
    + rewrite Hst, Hen, Hsn, Hsen, segment_take_drop.
      by apply indexOf_Some in Hn as [? _].
    + by rewrite Hst, Hsn, Nat2Z.id.
  - rewrite Hps. intros p q src1 src2 Hp1 Hq1 Hs1 Hs2 Ev Hv.
    destruct (Hrel p Hp1 src1 Hs1 Hv) as (n1 & Hn1 & Ha1 & Hb1).
    destruct (Hrel q Hq1 src2 Hs2 ltac:(by rewrite <- Ev))
      as (n2 & Hn2 & Ha2 & Hb2).
    rewrite <- Ev in Hn2, Hb2. assert (n1 = n2) as -> by congruence.
    split; congruence.
Qed.

Lemma editorReturned_relocates_witness :
  let content := lit "ask @plan then @plan again" in
  let s' := editorReturned two_mentions content init in
  prompt_input s' = content
  ∧ ta_plainText (input s') = content
  ∧ prompt_parts s' = omap (relocate content) two_mentions
  ∧ (∀ m, m ∈ ta_extmarks (input s') →
       ∃ i p src,
         st_extmarkToPartIndex (store s') !! e_id m = Some i
         ∧ prompt_parts s' !! i = Some p
         ∧ part_source p = Some src
         ∧ e_start m = src_start src ∧ e_end m = src_end src
         ∧ segment content (e_start m) (e_end m) = src_value src
         ∧ indexOf content (src_value src) = Some (Z.to_nat (e_start m)))
  ∧ (∀ p q src1 src2,
       p ∈ prompt_parts s' → q ∈ prompt_parts s' →
       part_source p = Some src1 → part_source q = Some src2 →
       src_value src1 = src_value src2 → src_value src1 ≠ [] →
       src_start src1 = src_start src2 ∧ src_end src1 = src_end src2).
Proof.
  apply (editorReturned_relocates two_mentions
           (lit "ask @plan then @plan again") init).
  - vm_compute. discriminate.
  - refine (bool_decide_unpack _ _). vm_compute. exact I.
Defined.

(** ** Committing an edit releases the dispatcher *)





(** ** The status of other sessions *)

(** X16: in a reachable state, a change of the status of a session that is
    not the session of the component moves nothing: the step records the
    status and leaves the queue, the gate, the editing state, the input and
    the calls made as they are. *)
Theorem other_session_status_ignored (s : State) (sid : jsstring)
    (st : StatusType) :
  reachable s → sid ≠ default [] (sessionID (props s)) →
  step s (EvStatus sid st) = setStatus sid st s
  ∧ status (step s (EvStatus sid st)) = status s
  ∧ sig (step s (EvStatus sid st)) = sig s
  ∧ run (step s (EvStatus sid st)) = run s
  ∧ store (step s (EvStatus sid st)) = store s.
Proof.
  intros Hr Hne.
  assert (status (setStatus sid st s) = status s) as Hst.
  { unfold status, setStatus. simpl. by rewrite lookup_insert_ne. }
  assert (step s (EvStatus sid st) = setStatus sid st s) as ->.
  { unfold step, handle. by apply (settled_frame_status s). }
  done.
Qed.

Lemma other_session_status_ignored_witness :
  step queue3 (EvStatus (lit "ses_2") idle) = setStatus (lit "ses_2") idle queue3
  ∧ status (step queue3 (EvStatus (lit "ses_2") idle)) = status queue3
  ∧ sig (step queue3 (EvStatus (lit "ses_2") idle)) = sig queue3
  ∧ run (step queue3 (EvStatus (lit "ses_2") idle)) = run queue3
  ∧ store (step queue3 (EvStatus (lit "ses_2") idle)) = store queue3.
Proof.
  apply (other_session_status_ignored queue3 (lit "ses_2") idle).
  - exact queue3_reachable.
  - vm_compute. discriminate.
Defined.

(** ** An empty input *)

Lemma submit_empty s : prompt_input s = [] → submit s = s.
Proof.
  intros Hi. unfold submit. destruct (disabled (props s)); [done|].
  cbv zeta. destruct (_ && _); [done|]. by rewrite decide_True.
Qed.

Lemma queueAtEndOfLoop_empty id s :
  prompt_input s = [] → queueAtEndOfLoop id s = s.
Proof.
  intros Hi. pose proof (submit_empty s Hi) as Hs.
  unfold queueAtEndOfLoop. destruct (disabled (props s)); [done|].
  destruct (autocomplete_visible (env s)); [done|].
  destruct (_ || _); [done|]. cbv zeta. rewrite Hi.
  by rewrite bool_decide_eq_true_2.
Qed.

(** X17: with an empty input, submitting and queueing do nothing at all in
    a reachable state; so a queued prompt that is being edited stays in
    that state, and the queue stays undispatched, until the input holds a
    text again: an edit can not be committed as an empty prompt. *)
Theorem empty_input_does_nothing (s : State) (e : Event) :
  reachable s → prompt_input s = [] →
  e = EvSubmit ∨ (∃ id, e = EvQueueAtEndOfLoop id) →
  step s e = s.
Proof.
  intros Hr Hi He. unfold step.
  assert (handle e s = s) as ->.
  { destruct He as [->|[id ->]]; simpl.
    - by apply submit_empty.
    - by apply queueAtEndOfLoop_empty. }
  by apply reachable_settled.
Qed.

Lemma empty_input_does_nothing_witness :
  truthy (queuedEditID editing_emptied) = true
  ∧ step editing_emptied EvSubmit = editing_emptied.
Proof.
  split; [vm_compute; reflexivity|].
  apply (empty_input_does_nothing editing_emptied EvSubmit).
  - unfold editing_emptied, queue3. rewrite <- !run_events_app.
    apply reachable_run; [constructor|].
    refine (bool_decide_unpack _ _). vm_compute. exact I.
  - vm_compute. reflexivity.
  - left. reflexivity.
Defined.
